(** * clickhouse-playground: the local-docker query runner

    A shallow embedding of [internal/qrunner/localdocker/local_docker.go]:
    the image pull pipeline, the container life cycle, the readiness-retry
    query executor, the per-request cleanup watcher and the garbage
    collector, together with the properties the specification states
    about them.

    Conventions.
    - Go [string] is a byte sequence: [String.string].
    - Go [int], [int64], [uint], [uint64] and [time.Duration] are [Z];
      conversions and unsigned accumulation have their wrap-around written
      out ([int_of], [u64]).
    - [time.Time] is the instant it denotes, in nanoseconds since the Unix
      epoch ([Z]); [time.Unix] and [Time.Add] compute on [int64] seconds
      as the library does; [Before] is [<].
    - A Go [error] is its message; [nil] is [None].
    - The Docker daemon, the tag storage, the clock and the contexts are
      an oracle ([World]) consulted on the history of interactions so far;
      every interaction is appended to that history, so that "which calls
      were issued" is a statement about the resulting history. *)

From Stdlib Require Import ZArith List String Ascii Bool Lia.
From Stdlib Require Import Permutation Sorted.
Import ListNotations.

Local Open Scope string_scope.
Local Open Scope list_scope.
Local Open Scope Z_scope.

(** ** Go strings *)

(** [strings.HasPrefix]. *)
Fixpoint HasPrefix (s prefix : string) {struct prefix} : bool :=
  match prefix with
  | EmptyString => true
  | String c prefix' =>
      match s with
      | EmptyString => false
      | String d s' => Ascii.eqb d c && HasPrefix s' prefix'
      end
  end.

(** [strings.Contains]: [substr] occurs at some offset of [s]. *)
Fixpoint Contains (s substr : string) : bool :=
  HasPrefix s substr ||
  match s with
  | EmptyString => false
  | String _ s' => Contains s' substr
  end.

(** ** The readiness check (local_docker.go, lines 502-508) *)

Definition connectionRefused : string := "DB::NetException: Connection refused".

(** [checkIfQueryExecuted(_, stderr)]: the first argument is blank in the
    source. *)
Definition checkIfQueryExecuted (_stdout stderr : string) : bool :=
  negb (Contains stderr connectionRefused).

(** ** Go integers, errors and time *)

(** Conversion to [uint64] (and to [uint] on a 64-bit platform). *)
Definition u64 (z : Z) : Z := z mod 2 ^ 64.

(** Conversion [int(x)] of a value of any Go integer type, on a 64-bit
    platform: the two's complement reading of its low 64 bits. *)
Definition int_of (z : Z) : Z := (z + 2 ^ 63) mod 2 ^ 64 - 2 ^ 63.

Definition error : Type := string.

Inductive Result (A : Type) : Type :=
| Ok (a : A)
| Err (e : error).
Arguments Ok {A} a.
Arguments Err {A} e.

(** [errors.Wrap(err, message)] of github.com/pkg/errors. *)
Definition Wrap (e : error) (message : string) : error :=
  (message ++ ": " ++ e)%string.

(** A call either returns or panics (run-time panic of the Go runtime). *)
Inductive Outcome (A : Type) : Type :=
| Returned (a : A)
| Panicked (msg : string).
Arguments Returned {A} a.
Arguments Panicked {A} msg.

(** [time.Time], for the values the runner handles (wall-clock times
    without a monotonic reading, and clock readings compared with them),
    as the instant it denotes: nanoseconds since the Unix epoch.  The Go
    value keeps the seconds since year 1 in an [int64] and the nanoseconds
    of the second apart; [time.Unix] and [Time.Add] compute on these, and
    their overflow behaviour is written out. *)
Definition Time : Type := Z.

Definition unixToInternal : Z := 62135596800.

Definition Time_sec (t : Time) : Z := t / 1000000000 + unixToInternal.
Definition Time_nsec (t : Time) : Z := t mod 1000000000.
Definition instant (sec nsec : Z) : Time :=
  (sec - unixToInternal) * 1000000000 + nsec.

(** [time.Unix(sec, nsec)]: [nsec] is brought into [0, 1e9), then the
    seconds are moved to the internal epoch; both additions are [int64]
    additions and wrap. *)
Definition time_Unix (sec nsec : Z) : Time :=
  let '(sec, nsec) :=
    if (nsec <? 0) || (1000000000 <=? nsec) then
      let n := Z.quot nsec 1000000000 in
      let sec := int_of (sec + n) in
      let nsec := nsec - n * 1000000000 in
      if nsec <? 0 then (int_of (sec - 1), nsec + 1000000000)
      else (sec, nsec)
    else (sec, nsec) in
  instant (int_of (sec + unixToInternal)) nsec.

(** [Time.addSec]: the sum of the seconds, pinned to the end of the
    [int64] range it overflowed.  (Go releases without this check wrap
    instead; the two agree wherever the sum is representable.) *)
Definition addSec (sec d : Z) : Z :=
  let sum := int_of (sec + d) in
  if Bool.eqb (sec <? sum) (0 <? d) then sum
  else if 0 <? d then 2 ^ 63 - 1
  else - (2 ^ 63 - 1).

(** [t.Add(d)]: Go's [/] and [%] truncate towards zero. *)
Definition Time_Add (t : Time) (d : Z) : Time :=
  let dsec := Z.quot d 1000000000 in
  let nsec := Time_nsec t + Z.rem d 1000000000 in
  let '(dsec, nsec) :=
    if 1000000000 <=? nsec then (dsec + 1, nsec - 1000000000)
    else if nsec <? 0 then (dsec - 1, nsec + 1000000000)
    else (dsec, nsec) in
  instant (addSec (Time_sec t) dsec) nsec.

(** [t.Before(u)]: seconds, then nanoseconds, which is the order of the
    instants. *)
Definition Time_Before (t u : Time) : bool := t <? u.

Definition LF : string := String (ascii_of_nat 10) EmptyString.

(** [path.Ext]: the suffix starting at the last dot of the last
    slash-separated element, empty if there is none.  The auxiliary result
    is the extension found so far, scanning from the right, and whether a
    slash has been met. *)
Fixpoint path_Ext_scan (p : string) : option string * bool :=
  match p with
  | EmptyString => (None, false)
  | String c p' =>
      match path_Ext_scan p' with
      | (Some e, _) => (Some e, false)
      | (None, true) => (None, true)
      | (None, false) =>
          if Ascii.eqb c "."%char then (Some p, false)
          else if Ascii.eqb c "/"%char then (None, true)
          else (None, false)
      end
  end.

Definition path_Ext (p : string) : string :=
  match fst (path_Ext_scan p) with
  | Some e => e
  | None => ""
  end.

(** ** Data read from the Docker API and from the configuration *)

(** [dockertag.ImageTag]; the runner reads its digest only. *)
Record ImageTag : Type := { Digest : string }.

(** [types.Container], the fields the collector reads. *)
Record Container : Type := {
  Container_ID : string;
  Container_Created : Z;          (* int64, seconds *)
  Container_SizeRw : Z            (* int64 *)
}.

(** [types.ContainersPruneReport]. *)
Record ContainersPruneReport : Type := {
  ContainersDeleted : list string;
  SpaceReclaimed : Z              (* uint64 *)
}.

(** [types.ImageSummary]. *)
Record ImageSummary : Type := {
  ImageSummary_ID : string;
  ImageSummary_RepoTags : list string
}.

(** [types.ImageInspect]; [LastTagTime] is [Metadata.LastTagTime]. *)
Record ImageInspect : Type := {
  ImageInspect_ID : string;
  ImageInspect_RepoTags : list string;
  ImageInspect_Size : Z;          (* int64 *)
  LastTagTime : Time
}.

(** [mount.Mount] as [runContainer] builds it (type bind). *)
Record Mount : Type := {
  Mount_Source : string;
  Mount_Target : string;
  Mount_ReadOnly : bool
}.

(** The arguments of [ContainerCreate]: [container.Config] and
    [container.HostConfig]. *)
Record ContainerSpec : Type := {
  Spec_Image : string;
  Spec_Labels : list (string * string);
  Spec_Mounts : list Mount
}.

(** [GCConfig].  Its declaration is not among the sources at hand; the
    fields hold the configured integer values, and the code converts
    [ImageGCCountThreshold] and [ImageBufferSize] with [int(...)]. *)
Record GCConfig : Type := {
  TriggerFrequency : Z;
  ContainerTTL : option Z;            (* *time.Duration *)
  ImageGCCountThreshold : option Z;
  ImageBufferSize : Z
}.

Record Config : Type := {
  GC : option GCConfig;
  MaxExecRetries : Z;                 (* int *)
  ExecRetryDelay : Z;                 (* time.Duration *)
  CustomConfigPath : option string
}.

Record Runner : Type := {
  cfg : Config;
  repository : string
}.

Record requestState : Type := {
  runID : string;
  version : string;
  query : string;
  chpImageName : string;
  containerID : string
}.

(** How the [select] of [exec] resolves: the copy of the attached stream
    finished (with the demultiplexed output or a copy error), or the
    caller's context ended first.  In the second case [e] is [ctx.Err()];
    the copy goroutine is still running then, and it assigns the outcome
    of [stdcopy.StdCopy] to the result variable [err] of [exec] (line
    453), which it shares: [late] is that assignment when it lands after
    the [return] of line 464 has set [err] and before [exec] has returned,
    that is while the deferred [resp.Close()], which ends the copy, and
    the deferred metrics call run. *)
Inductive ExecOutcome : Type :=
| OutputDone (r : Result (string * string))
| CtxDone (e : error) (late : option (option error)).

(** ** Interactions with the environment *)

Inductive Event : Type :=
| EvTagGet (ver : string) (r : option ImageTag)
| EvIsStopped (stopped : bool)
| EvNow (t : Time)
| EvSleep (d : Z)
| EvContainersPrune (label : string) (r : Result ContainersPruneReport)
| EvContainerList (label : string) (r : Result (list Container))
| EvContainerRemove (id : string) (r : option error)
| EvImageList (r : Result (list ImageSummary))
| EvImageInspect (ref : string) (r : Result ImageInspect)
| EvImageRemove (ref : string) (r : option error)
| EvImagePull (ref : string) (r : option error)
| EvReadAll (r : Result string)
| EvImageTag (source target : string) (r : option error)
| EvContainerCreate (spec : ContainerSpec) (r : Result string)
| EvContainerStart (id : string) (r : option error)
| EvExecCreate (cid : string) (cmd : list string) (r : Result string)
| EvExecAttach (execID : string) (r : option error)
| EvExecOutput (r : ExecOutcome)
| EvGoWatcher (cid : string).

Definition History : Type := list Event.

(** The environment: each answer may depend on everything that happened
    before it.  [ctx_Done] is the runner's own context ([r.ctx]); the
    caller's context shows in the answers of the request path. *)
Record World : Type := {
  tagStorage_Get : History -> string -> option ImageTag;
  ctx_Done : History -> bool;
  time_Now : History -> Time;
  cli_ContainersPrune : History -> string -> Result ContainersPruneReport;
  cli_ContainerList : History -> string -> Result (list Container);
  cli_ContainerRemove : History -> string -> option error;
  cli_ImageList : History -> Result (list ImageSummary);
  cli_ImageInspectWithRaw : History -> string -> Result ImageInspect;
  cli_ImageRemove : History -> string -> option error;
  cli_ImagePull : History -> string -> option error;
  io_ReadAll : History -> Result string;
  cli_ImageTag : History -> string -> string -> option error;
  cli_ContainerCreate : History -> ContainerSpec -> Result string;
  cli_ContainerStart : History -> string -> option error;
  cli_ContainerExecCreate : History -> string -> list string -> Result string;
  cli_ContainerExecAttach : History -> string -> option error;
  exec_select : History -> ExecOutcome
}.

(** ** The monad of the runner: a computation reads and extends the history *)

Definition M (A : Type) : Type := History -> A * History.

Definition ret {A : Type} (a : A) : M A := fun h => (a, h).

Definition bind {A B : Type} (m : M A) (k : A -> M B) : M B :=
  fun h => let (a, h') := m h in k a h'.

Notation "x <- m ;; k" := (bind m (fun x => k))
  (at level 61, m at next level, right associativity).
Notation "' pat <- m ;; k" := (bind m (fun x => match x with pat => k end))
  (at level 61, pat pattern, m at next level, right associativity).

(** Ask the environment and record question and answer. *)
Definition ask {A : Type} (oracle : History -> A) (ev : A -> Event) : M A :=
  fun h => let a := oracle h in (a, h ++ [ev a]).

(** Record an action that has no answer. *)
Definition emit (ev : Event) : M unit := fun h => (tt, h ++ [ev]).

(** What a computation returns from a history, and the history it
    leaves. *)
Definition result {A : Type} (m : M A) (h : History) : A := fst (m h).
Definition history {A : Type} (m : M A) (h : History) : History := snd (m h).

(** ** The runner *)

Section LocalDocker.

(** Package [qrunner] is not among the sources at hand; its constants and
    pure naming functions are parameters of the development. *)
Variable LabelOwnership : string.
Variable IsPlaygroundImageName : string -> string -> bool.
Variable FullImageName : string -> string -> string.
Variable PlaygroundImageName : string -> string -> string.
Variable CreateContainerLabels : string -> string -> list (string * string).

(** [sort.Slice] with the comparison of [triggerImagesGC] (line 226).  The
    Go sort is not stable, so among equal last-tag times the order is
    whatever the library produces; the properties below are all that is
    assumed of it. *)
Variable sort_Slice : list ImageInspect -> list ImageInspect.

Definition ascending (a b : ImageInspect) : Prop := LastTagTime a <= LastTagTime b.

Hypothesis sort_Slice_perm : forall l, Permutation (sort_Slice l) l.
Hypothesis sort_Slice_sorted : forall l, StronglySorted ascending (sort_Slice l).

Variable w : World.
Variable r : Runner.

(** *** Primitive interactions *)

Definition isStopped : M bool :=
  ask (ctx_Done w) EvIsStopped.

Definition Now : M Time :=
  ask (time_Now w) EvNow.

Definition Sleep (d : Z) : M unit :=
  emit (EvSleep d).

Definition ContainersPrune (label : string) : M (Result ContainersPruneReport) :=
  ask (fun h => cli_ContainersPrune w h label) (EvContainersPrune label).

Definition ContainerList (label : string) : M (Result (list Container)) :=
  ask (fun h => cli_ContainerList w h label) (EvContainerList label).

Definition ContainerRemove (id : string) : M (option error) :=
  ask (fun h => cli_ContainerRemove w h id) (EvContainerRemove id).

Definition ImageList : M (Result (list ImageSummary)) :=
  ask (cli_ImageList w) EvImageList.

Definition ImageInspectWithRaw (ref : string) : M (Result ImageInspect) :=
  ask (fun h => cli_ImageInspectWithRaw w h ref) (EvImageInspect ref).

Definition ImageRemove (ref : string) : M (option error) :=
  ask (fun h => cli_ImageRemove w h ref) (EvImageRemove ref).

Definition ImagePull (ref : string) : M (option error) :=
  ask (fun h => cli_ImagePull w h ref) (EvImagePull ref).

Definition ReadAll : M (Result string) :=
  ask (io_ReadAll w) EvReadAll.

Definition ImageTagCall (source target : string) : M (option error) :=
  ask (fun h => cli_ImageTag w h source target) (EvImageTag source target).

Definition ContainerCreate (spec : ContainerSpec) : M (Result string) :=
  ask (fun h => cli_ContainerCreate w h spec) (EvContainerCreate spec).

Definition ContainerStart (id : string) : M (option error) :=
  ask (fun h => cli_ContainerStart w h id) (EvContainerStart id).

Definition ContainerExecCreate (cid : string) (cmd : list string) : M (Result string) :=
  ask (fun h => cli_ContainerExecCreate w h cid cmd) (EvExecCreate cid cmd).

Definition ContainerExecAttach (execID : string) : M (option error) :=
  ask (fun h => cli_ContainerExecAttach w h execID) (EvExecAttach execID).

Definition execSelect : M ExecOutcome :=
  ask (exec_select w) EvExecOutput.

Definition TagGet (ver : string) : M (option ImageTag) :=
  ask (fun h => tagStorage_Get w h ver) (EvTagGet ver).

(** *** forceRemoveContainer (lines 510-527)

    Metrics and logging are observers without influence on control flow;
    they are left out throughout, together with the clock reads that only
    feed them. *)
Definition forceRemoveContainer (id : string) : M (option error) :=
  ContainerRemove id.

(** *** triggerContainersGC (lines 125-172) *)

Definition deadline (ttl : Z) (c : Container) : Time :=
  Time_Add (time_Unix (Container_Created c) 0) ttl.

(** The loop of lines 155-169 with its two accumulators. *)
Fixpoint sweepContainers (ttl : Z) (containers : list Container)
  (count spaceReclaimed : Z) : M (Z * Z) :=
  match containers with
  | [] => ret (count, spaceReclaimed)
  | c :: rest =>
      now <- Now ;;
      if Time_Before now (deadline ttl c) then
        sweepContainers ttl rest count spaceReclaimed
      else
        err <- forceRemoveContainer (Container_ID c) ;;
        match err with
        | Some _ => sweepContainers ttl rest count spaceReclaimed
        | None =>
            sweepContainers ttl rest (u64 (count + 1))
              (u64 (spaceReclaimed + u64 (Container_SizeRw c)))
        end
  end.

(** [r.cfg.GC] is dereferenced by the collector; [StartGarbageCollector]
    returns before the first trigger when it is nil, so the collector
    functions take the configuration it points to. *)
Definition triggerContainersGC (gc : GCConfig) : M (Z * Z * option error) :=
  out <- ContainersPrune LabelOwnership ;;
  match out with
  | Err e => ret (0, 0, Some (Wrap e "failed to prune stopped containers"))
  | Ok out =>
      let count := u64 (0 + u64 (Z.of_nat (List.length (ContainersDeleted out)))) in
      let spaceReclaimed := u64 (0 + SpaceReclaimed out) in
      match ContainerTTL gc with
      | None => ret (count, spaceReclaimed, None)
      | Some ttl =>
          containers <- ContainerList LabelOwnership ;;
          match containers with
          | Err e => ret (count, spaceReclaimed, Some (Wrap e "failed to list containers"))
          | Ok containers =>
              '(count', spaceReclaimed') <-
                sweepContainers ttl containers count spaceReclaimed ;;
              ret (count', spaceReclaimed', None)
          end
      end
  end.

(** *** removeImages (lines 237-264) *)

(** The inner loop over the tags of one image; [ok] is the flag of line
    240. *)
Fixpoint removeTags (tags : list string) (ok : bool) : M bool :=
  match tags with
  | [] => ret ok
  | tag :: rest =>
      err <- ImageRemove tag ;;
      match err with
      | Some _ => removeTags rest false
      | None => removeTags rest ok
      end
  end.

Fixpoint removeImagesFrom (images : list ImageInspect)
  (count spaceReclaimed : Z) : M (Z * Z) :=
  match images with
  | [] => ret (count, spaceReclaimed)
  | img :: rest =>
      ok <- removeTags (ImageInspect_RepoTags img) true ;;
      if ok then
        removeImagesFrom rest (u64 (count + 1))
          (u64 (spaceReclaimed + u64 (ImageInspect_Size img)))
      else
        removeImagesFrom rest count spaceReclaimed
  end.

Definition removeImages (images : list ImageInspect) : M (Z * Z) :=
  removeImagesFrom images 0 0.

(** *** triggerImagesGC (lines 177-235) *)

(** Lines 195-201: some tag of the image is a playground image name. *)
Definition matched (img : ImageSummary) : bool :=
  existsb (fun tag => IsPlaygroundImageName tag (repository r))
    (ImageSummary_RepoTags img).

(** Lines 214-223: inspect every candidate, skipping those whose
    inspection fails. *)
Fixpoint inspectCandidates (candidates : list ImageSummary) : M (list ImageInspect) :=
  match candidates with
  | [] => ret []
  | c :: rest =>
      inspect <- ImageInspectWithRaw (ImageSummary_ID c) ;;
      detailed <- inspectCandidates rest ;;
      match inspect with
      | Err _ => ret detailed
      | Ok i => ret (i :: detailed)
      end
  end.

(** The slice expression [s[i:]]: a run-time panic unless [0 <= i <= len(s)]. *)
Definition sliceFrom {A : Type} (s : list A) (i : Z) : Outcome (list A) :=
  if (i <? 0) || (Z.of_nat (List.length s) <? i)
  then Panicked "slice bounds out of range"
  else Returned (skipn (Z.to_nat i) s).

(** Lines 225-234, the tail of [triggerImagesGC]: sort, then remove what
    lies beyond the buffer. *)
Definition evict (gc : GCConfig) (detailed : list ImageInspect)
  : M (Outcome (Z * Z * option error)) :=
  let detailed := sort_Slice detailed in
  if int_of (ImageBufferSize gc) <? Z.of_nat (List.length detailed) then
    match sliceFrom detailed (int_of (ImageBufferSize gc)) with
    | Panicked msg => ret (Panicked msg)
    | Returned victims =>
        '(count, spaceReclaimed) <- removeImages victims ;;
        ret (Returned (count, spaceReclaimed, None))
    end
  else
    ret (Returned (0, 0, None)).

Definition triggerImagesGC (gc : GCConfig) : M (Outcome (Z * Z * option error)) :=
  match ImageGCCountThreshold gc with
  | None => ret (Returned (0, 0, None))
  | Some threshold =>
      images <- ImageList ;;
      match images with
      | Err e => ret (Returned (0, 0, Some (Wrap e "failed to list images")))
      | Ok images =>
          let candidates := filter matched images in
          if Z.of_nat (List.length candidates) <? int_of threshold then
            ret (Returned (0, 0, None))
          else
            detailed <- inspectCandidates candidates ;;
            evict gc detailed
      end
  end.

(** *** triggerGC (lines 99-121) *)

Definition triggerGC (gc : GCConfig) : M (Outcome (option error)) :=
  stopped <- isStopped ;;
  if stopped then ret (Returned None) else
  '(_, _, err) <- triggerContainersGC gc ;;
  match err with
  | Some e => ret (Returned (Some (Wrap e "containers gc failed")))
  | None =>
      stopped <- isStopped ;;
      if stopped then ret (Returned None) else
      res <- triggerImagesGC gc ;;
      match res with
      | Panicked msg => ret (Panicked msg)
      | Returned (_, _, Some e) => ret (Returned (Some (Wrap e "images gc failed")))
      | Returned (_, _, None) => ret (Returned None)
      end
  end.

(** *** pull and checkIfImageExists (lines 307-377) *)

Definition set_chpImageName (state : requestState) (name : string) : requestState :=
  {| runID := runID state; version := version state; query := query state;
     chpImageName := name; containerID := containerID state |}.

Definition set_containerID (state : requestState) (id : string) : requestState :=
  {| runID := runID state; version := version state; query := query state;
     chpImageName := chpImageName state; containerID := id |}.

(** The probe: the image exists exactly when the inspection returns no
    error, of whatever kind. *)
Definition checkIfImageExists (state : requestState) : M bool :=
  res <- ImageInspectWithRaw (chpImageName state) ;;
  match res with
  | Ok _ => ret true
  | Err _ => ret false
  end.

(** [pull] mutates the request state through a pointer; the embedding
    returns the state next to the error. *)
Definition pull (state : requestState) : M (requestState * option error) :=
  let imageName := FullImageName (repository r) (version state) in
  tag <- TagGet (version state) ;;
  match tag with
  | None => ret (state, Some "version not found")
  | Some tag =>
      let state := set_chpImageName state (PlaygroundImageName (repository r) (Digest tag)) in
      found <- checkIfImageExists state ;;
      if found then ret (state, None) else
      err <- ImagePull imageName ;;
      match err with
      | Some e => ret (state, Some (Wrap e "docker pull failed"))
      | None =>
          _ <- ReadAll ;;
          err <- ImageTagCall imageName (chpImageName state) ;;
          match err with
          | Some e => ret (state, Some (Wrap e "failed to tag image"))
          | None => ret (state, None)
          end
      end
  end.

(** *** runContainer (lines 380-425) *)

Definition customConfigMounts : list Mount :=
  match CustomConfigPath (cfg r) with
  | None => []
  | Some p =>
      [ {| Mount_Source := p;
           Mount_Target :=
             ("/etc/clickhouse-server/config.d/custom-config" ++ path_Ext p)%string;
           Mount_ReadOnly := true |} ]
  end.

Definition runContainer (state : requestState) : M (requestState * option error) :=
  let spec :=
    {| Spec_Image := chpImageName state;
       Spec_Labels := CreateContainerLabels (runID state) (version state);
       Spec_Mounts := customConfigMounts |} in
  cont <- ContainerCreate spec ;;
  match cont with
  | Err e => ret (state, Some (Wrap e "container cannot be created"))
  | Ok id =>
      err <- ContainerStart id ;;
      match err with
      | Some e => ret (state, Some (Wrap e "container cannot be started"))
      | None => ret (set_containerID state id, None)
      end
  end.

(** *** exec (lines 427-470)

    [err] is a named result; [return x, y, e] assigns the results and
    then runs the deferred calls, and what the caller receives is the
    value the result variables hold after them.  Only the return of line
    464 leaves the copy goroutine behind to write [err] in between. *)

Definition exec (state : requestState) : M (string * string * option error) :=
  created <- ContainerExecCreate (containerID state)
               ["clickhouse-client"; "-n"; "-m"; "--query"; query state] ;;
  match created with
  | Err e => ret ("", "", Some (Wrap e "exec create failed"))
  | Ok execID =>
      err <- ContainerExecAttach execID ;;
      match err with
      | Some e => ret ("", "", Some (Wrap e "exec attach failed"))
      | None =>
          sel <- execSelect ;;
          match sel with
          | OutputDone (Err e) => ret ("", "", Some (Wrap e "failed to get output"))
          | OutputDone (Ok (out, errout)) => ret (out, errout, None)
          | CtxDone e late =>
              ret ("", "", match late with
                           | Some assigned => assigned
                           | None => Some e
                           end)
          end
      end
  end.

(** *** runQuery (lines 472-500) *)

(** The loop of lines 481-493.  The counter [retry] runs from 0 while
    below [MaxExecRetries] and is not read by the body, so the loop is
    driven by the number of iterations left; [stdout] and [stderr] are
    the variables of lines 478-479. *)
Fixpoint runQueryLoop (left : nat) (state : requestState)
  (stdout stderr : string) : M (string * string * option error) :=
  match left with
  | O => ret (stdout, stderr, None)
  | S left' =>
      '(stdout', stderr', err) <- exec state ;;
      match err with
      | Some e => ret (stdout', stderr', Some e)
      | None =>
          if checkIfQueryExecuted stdout' stderr' then ret (stdout', stderr', None)
          else
            _ <- Sleep (ExecRetryDelay (cfg r)) ;;
            runQueryLoop left' state stdout' stderr'
      end
  end.

Definition runQuery (state : requestState) : M (string * option error) :=
  '(stdout, stderr, err) <-
    runQueryLoop (Z.to_nat (MaxExecRetries (cfg r))) state "" "" ;;
  match err with
  | Some e => ret ("", Some e)
  | None =>
      if String.eqb stderr "" then ret (stdout, None)
      else ret ((stdout ++ LF ++ stderr)%string, None)
  end.

(** *** RunQuery (lines 266-304), the goroutine of the caller

    The cleanup watcher of lines 286-296 runs concurrently; here its
    start is recorded with the container it will remove, and its
    behaviour is the subject of module [Watcher] below.

    The watcher assigns the result of its removal to the variable [err]
    of RunQuery (line 292), the one line 298 assigns and line 299 tests.
    [watcher_assigned h] is that assignment when it lands between these
    two lines, at history [h]: line 299 then tests the watcher's value
    instead of the one [runQuery] returned.  The watcher is released by
    the caller's context or by the deferred [close(done)] only, so it can
    be that early only if the context is canceled
    ([Watcher.results_without_cancel]). *)
Variable watcher_assigned : History -> option (option error).

Definition errAtLine299 (own : option error) : M (option error) :=
  fun h =>
    (match watcher_assigned h with
     | Some assigned => assigned
     | None => own
     end, h).

Definition RunQuery (id q ver : string) : M (string * option error) :=
  let state :=
    {| runID := id; version := ver; query := q;
       chpImageName := ""; containerID := "" |} in
  '(state, err) <- pull state ;;
  match err with
  | Some e => ret ("", Some (Wrap e "pull failed"))
  | None =>
      '(state, err) <- runContainer state ;;
      match err with
      | Some e => ret ("", Some (Wrap e "failed to run container"))
      | None =>
          _ <- emit (EvGoWatcher (containerID state)) ;;
          '(output, err) <- runQuery state ;;
          err <- errAtLine299 err ;;
          match err with
          | Some e => ret ("", Some (Wrap e "failed to run query"))
          | None => ret (output, None)
          end
      end
  end.

(** ** Properties *)

(** *** Substring search *)

Lemma HasPrefix_spec (s prefix : string) :
  HasPrefix s prefix = true <-> exists post, s = (prefix ++ post)%string.
Proof.
  revert s. induction prefix as [|c p IH]; intros s; simpl.
  - split; [intros _; now exists s | reflexivity].
  - destruct s as [|d s'].
    + split; [discriminate | intros [post H]; discriminate].
    + rewrite andb_true_iff, IH, Ascii.eqb_eq. split.
      * intros [-> [post ->]]. now exists post.
      * intros [post H]. injection H as -> ->. split; [reflexivity | now exists post].
Qed.

Lemma Contains_spec (s substr : string) :
  Contains s substr = true <->
  exists pre post, s = (pre ++ substr ++ post)%string.
Proof.
  induction s as [|d s' IH]; simpl; rewrite orb_true_iff.
  - split.
    + intros [H | H]; [| discriminate].
      apply HasPrefix_spec in H as [post H]. now exists EmptyString, post.
    + intros [pre [post H]]. left. apply HasPrefix_spec.
      destruct pre; [now exists post | discriminate].
  - rewrite IH. split.
    + intros [H | [pre [post ->]]].
      * apply HasPrefix_spec in H as [post H]. now exists EmptyString, post.
      * now exists (String d pre), post.
    + intros [pre [post H]]. destruct pre as [|c pre].
      * left. apply HasPrefix_spec. now exists post.
      * right. simpl in H. injection H as _ ->. now exists pre, post.
Qed.

(** C3.  The readiness check reports "not ready" (returns [false], the
    retry loop goes on) exactly when stderr contains the sentinel
    "DB::NetException: Connection refused"; empty stderr counts as ready,
    as does every stderr without the sentinel, and stdout has no
    influence on the result. *)
Theorem C3_not_ready_iff_sentinel_in_stderr :
  forall stdout stderr : string,
    (checkIfQueryExecuted stdout stderr = false <->
     exists pre post, stderr = (pre ++ connectionRefused ++ post)%string) /\
    checkIfQueryExecuted stdout "" = true /\
    (forall stdout', checkIfQueryExecuted stdout' stderr =
                     checkIfQueryExecuted stdout stderr).
Proof.
  intros stdout stderr. unfold checkIfQueryExecuted. repeat split.
  - intros H. apply negb_false_iff in H. now apply Contains_spec.
  - intros H. apply negb_false_iff. now apply Contains_spec.
Qed.

(** *** Unsigned accumulation *)

Lemma u64_add_l (a b : Z) : u64 (u64 a + b) = u64 (a + b).
Proof. unfold u64. apply Zplus_mod_idemp_l. Qed.

Lemma int_of_small (z : Z) : - 2 ^ 63 <= z < 2 ^ 63 -> int_of z = z.
Proof.
  intros H. unfold int_of. rewrite Z.mod_small; lia.
Qed.

(** *** removeImages: what is attempted and what is counted *)

(** The removal events of one image: one attempt per repo tag, in order,
    each with the answer of the daemon. *)
Definition tagRemovals (tags : list string) (answers : list (option error)) : History :=
  map (fun p => EvImageRemove (fst p) (snd p)) (combine tags answers).

Definition allSucceeded (answers : list (option error)) : bool :=
  forallb (fun a => match a with None => true | Some _ => false end) answers.

(** [RemovalPass images tr n space]: [tr] is a pass over [images] in which
    every tag of every image is attempted exactly once; [n] images had all
    their tag removals succeed, and [space] is the sum of their sizes. *)
Inductive RemovalPass : list ImageInspect -> History -> Z -> Z -> Prop :=
| pass_done : RemovalPass [] [] 0 0
| pass_removed (img : ImageInspect) rest tr n space :
    RemovalPass rest tr n space ->
    RemovalPass (img :: rest)
      (map (fun tag => EvImageRemove tag None) (ImageInspect_RepoTags img) ++ tr)
      (n + 1) (space + u64 (ImageInspect_Size img))
| pass_failed (img : ImageInspect) rest answers tr n space :
    List.length answers = List.length (ImageInspect_RepoTags img) ->
    (exists e, In (Some e) answers) ->
    RemovalPass rest tr n space ->
    RemovalPass (img :: rest)
      (tagRemovals (ImageInspect_RepoTags img) answers ++ tr) n space.

Lemma removeTags_spec (tags : list string) :
  forall (ok : bool) (h : History),
  exists answers,
    List.length answers = List.length tags /\
    removeTags tags ok h =
      (ok && allSucceeded answers, h ++ tagRemovals tags answers).
Proof.
  induction tags as [|tag rest IH]; intros ok h; simpl.
  - exists []. unfold ret, tagRemovals. simpl.
    now rewrite andb_true_r, app_nil_r.
  - unfold bind, ImageRemove, ask.
    destruct (cli_ImageRemove w h tag) as [e|] eqn:E.
    + destruct (IH false (h ++ [EvImageRemove tag (Some e)])) as [answers [L R]].
      exists (Some e :: answers). simpl. split; [now rewrite L |].
      rewrite R, <- app_assoc. unfold tagRemovals. simpl.
      now rewrite andb_false_r.
    + destruct (IH ok (h ++ [EvImageRemove tag None])) as [answers [L R]].
      exists (None :: answers). simpl. split; [now rewrite L |].
      rewrite R, <- app_assoc. reflexivity.
Qed.

Lemma allSucceeded_true (tags : list string) :
  forall answers,
    List.length answers = List.length tags ->
    allSucceeded answers = true ->
    tagRemovals tags answers = map (fun tag => EvImageRemove tag None) tags.
Proof.
  induction tags as [|tag rest IH]; intros [|a answers] L A; try discriminate.
  - reflexivity.
  - simpl in A. destruct a; [discriminate |].
    unfold tagRemovals in *. simpl. f_equal. apply IH; [now injection L | exact A].
Qed.

Lemma allSucceeded_false (answers : list (option error)) :
  allSucceeded answers = false -> exists e, In (Some e) answers.
Proof.
  induction answers as [|a rest IH]; simpl; [discriminate |].
  destruct a as [e|]; intros A.
  - exists e. now left.
  - destruct (IH A) as [e He]. exists e. now right.
Qed.

Lemma removeImagesFrom_spec (images : list ImageInspect) :
  forall (count space : Z) (h : History),
  exists tr n sp,
    RemovalPass images tr n sp /\
    removeImagesFrom images (u64 count) (u64 space) h =
      ((u64 (count + n), u64 (space + sp)), h ++ tr).
Proof.
  induction images as [|img rest IH]; intros count space h; simpl.
  - exists [], 0, 0. split; [constructor |].
    unfold ret. now rewrite !Z.add_0_r, app_nil_r.
  - unfold bind.
    destruct (removeTags_spec (ImageInspect_RepoTags img) true h)
      as [answers [L R]].
    rewrite R. simpl. destruct (allSucceeded answers) eqn:A.
    + rewrite !u64_add_l.
      destruct (IH (count + 1) (space + u64 (ImageInspect_Size img))
                  (h ++ tagRemovals (ImageInspect_RepoTags img) answers))
        as [tr [n [sp [P E]]]].
      exists (map (fun tag => EvImageRemove tag None) (ImageInspect_RepoTags img) ++ tr),
        (n + 1), (sp + u64 (ImageInspect_Size img)).
      split; [now constructor |].
      rewrite E, <- (allSucceeded_true _ _ L A), <- app_assoc.
      replace (count + 1 + n) with (count + (n + 1)) by lia.
      replace (space + u64 (ImageInspect_Size img) + sp)
        with (space + (sp + u64 (ImageInspect_Size img))) by lia.
      reflexivity.
    + destruct (IH count space
                  (h ++ tagRemovals (ImageInspect_RepoTags img) answers))
        as [tr [n [sp [P E]]]].
      exists (tagRemovals (ImageInspect_RepoTags img) answers ++ tr), n, sp.
      split; [constructor; auto using allSucceeded_false |].
      now rewrite E, <- app_assoc.
Qed.

(** C8.  In a removal pass every repo tag of every image is attempted
    exactly once, in order (nothing is retried); an image is counted, and
    its size added to the space reclaimed, exactly when all removals of
    its tags succeeded, and contributes nothing as soon as one of them
    failed.  Count and space are the [uint]/[uint64] totals. *)
Theorem C8_image_counted_only_if_all_tags_removed :
  forall (images : list ImageInspect) (h : History),
  exists tr n space,
    RemovalPass images tr n space /\
    removeImages images h = ((u64 n, u64 space), h ++ tr).
Proof.
  intros images h. unfold removeImages.
  destruct (removeImagesFrom_spec images 0 0 h) as [tr [n [sp [P E]]]].
  exists tr, n, sp. split; [exact P |].
  change 0 with (u64 0) at 1 2. exact E.
Qed.

(** *** triggerContainersGC: the hung-container sweep *)

(** [SweepTrace ttl containers tr]: [tr] is a sweep over [containers] in
    list order.  For each container the clock is read once; a container
    whose creation time plus [ttl] lies after that reading is left alone,
    and the others get one force-remove call each. *)
Inductive SweepTrace (ttl : Z) : list Container -> History -> Prop :=
| sweep_end : SweepTrace ttl [] []
| sweep_young c rest (t : Time) tr :
    t < Container_Created c * 1000000000 + ttl ->
    SweepTrace ttl rest tr ->
    SweepTrace ttl (c :: rest) (EvNow t :: tr)
| sweep_expired c rest (t : Time) res tr :
    Container_Created c * 1000000000 + ttl <= t ->
    SweepTrace ttl rest tr ->
    SweepTrace ttl (c :: rest)
      (EvNow t :: EvContainerRemove (Container_ID c) res :: tr).

(** Where the arithmetic of [time.Unix] and [Time.Add] stays inside
    [int64], the deadline of line 150 is the creation time plus the TTL.
    A [time.Duration] is an [int64]; creation times are taken within
    2^62 seconds of the epoch, far beyond any date the daemon reports.
    Outside that range [time.Unix] wraps. *)
Definition isDuration (d : Z) : Prop := - 2 ^ 63 <= d < 2 ^ 63.

Definition createdInRange (c : Container) : Prop :=
  - 2 ^ 62 <= Container_Created c <= 2 ^ 62.

Lemma time_Unix_seconds (sec : Z) :
  - 2 ^ 62 <= sec <= 2 ^ 62 -> time_Unix sec 0 = sec * 1000000000.
Proof.
  intros R. unfold time_Unix.
  change ((0 <? 0) || (1000000000 <=? 0)) with false. cbv iota beta.
  unfold instant. rewrite int_of_small by (unfold unixToInternal; lia). lia.
Qed.

Lemma addSec_in_range (sec d : Z) :
  - 2 ^ 63 <= sec + d < 2 ^ 63 -> addSec sec d = sec + d.
Proof.
  intros R. unfold addSec. rewrite int_of_small by exact R.
  destruct (Z.ltb_spec sec (sec + d)) as [A | A],
           (Z.ltb_spec 0 d) as [B | B]; simpl; try reflexivity; lia.
Qed.

Lemma Time_Add_in_range (t : Time) (d : Z) :
  isDuration d ->
  - 2 ^ 62 * 1000000000 <= t <= 2 ^ 62 * 1000000000 ->
  Time_Add t d = t + d.
Proof.
  unfold isDuration. intros Rd Rt. unfold Time_Add, Time_sec, Time_nsec.
  set (q := Z.quot d 1000000000). set (m := Z.rem d 1000000000).
  set (ts := t / 1000000000). set (tn := t mod 1000000000).
  assert (Q : d = 1000000000 * q + m /\ - 1000000000 < m < 1000000000 /\
              - 10000000000 < q < 10000000000).
  { unfold q, m. pose proof (Z.quot_rem' d 1000000000) as E.
    destruct (Z.le_gt_cases 0 d) as [P | N].
    - pose proof (Z.rem_bound_pos_pos d 1000000000 eq_refl P). lia.
    - pose proof (Z.rem_bound_pos_neg d 1000000000 eq_refl
                    ltac:(apply Z.lt_le_incl; exact N)). lia. }
  assert (T : t = 1000000000 * ts + tn /\ 0 <= tn < 1000000000).
  { unfold ts, tn. pose proof (Z.div_mod t 1000000000).
    pose proof (Z.mod_pos_bound t 1000000000). lia. }
  destruct Q as [Q [Rm Rq]]. destruct T as [T Rn].
  destruct (Z.leb_spec 1000000000 (tn + m)) as [A | A];
    [| destruct (Z.ltb_spec (tn + m) 0) as [B | B]];
    unfold instant; rewrite addSec_in_range; unfold unixToInternal; lia.
Qed.

Lemma deadline_in_range (ttl : Z) (c : Container) :
  isDuration ttl -> createdInRange c ->
  deadline ttl c = Container_Created c * 1000000000 + ttl.
Proof.
  unfold createdInRange. intros Rd Rc. unfold deadline.
  rewrite time_Unix_seconds by exact Rc.
  apply Time_Add_in_range; [exact Rd | lia].
Qed.

Lemma sweepContainers_spec (ttl : Z) (containers : list Container) :
  forall (count space : Z) (h : History),
  exists res tr,
    sweepContainers ttl containers count space h = (res, h ++ tr) /\
    (isDuration ttl -> Forall createdInRange containers ->
     SweepTrace ttl containers tr).
Proof.
  induction containers as [|c rest IH]; intros count space h; simpl.
  - exists (count, space), []. unfold ret. rewrite app_nil_r.
    split; [reflexivity | constructor].
  - unfold bind at 1. unfold Now, ask. set (t := time_Now w h).
    unfold Time_Before.
    destruct (t <? deadline ttl c) eqn:Young.
    + destruct (IH count space (h ++ [EvNow t])) as [res [tr [E S]]].
      exists res, (EvNow t :: tr). rewrite E, <- app_assoc.
      split; [reflexivity |].
      intros Rd F. apply Forall_cons_iff in F as [Rc Rrest].
      rewrite deadline_in_range in Young by assumption.
      apply sweep_young; [now apply Z.ltb_lt | now apply S].
    + unfold bind, forceRemoveContainer, ContainerRemove, ask.
      set (h1 := h ++ [EvNow t]).
      set (answer := cli_ContainerRemove w h1 (Container_ID c)).
      assert (Old : isDuration ttl -> createdInRange c ->
                    Container_Created c * 1000000000 + ttl <= t).
      { intros Rd Rc. rewrite deadline_in_range in Young by assumption.
        now apply Z.ltb_ge. }
      destruct answer as [e|].
      * destruct (IH count space (h1 ++ [EvContainerRemove (Container_ID c) (Some e)]))
          as [res [tr [E S]]].
        exists res, (EvNow t :: EvContainerRemove (Container_ID c) (Some e) :: tr).
        rewrite E. unfold h1. rewrite <- !app_assoc.
        split; [reflexivity |].
        intros Rd F. apply Forall_cons_iff in F as [Rc Rrest].
        apply sweep_expired; auto.
      * destruct (IH (u64 (count + 1)) (u64 (space + u64 (Container_SizeRw c)))
                    (h1 ++ [EvContainerRemove (Container_ID c) None]))
          as [res [tr [E S]]].
        exists res, (EvNow t :: EvContainerRemove (Container_ID c) None :: tr).
        rewrite E. unfold h1. rewrite <- !app_assoc.
        split; [reflexivity |].
        intros Rd F. apply Forall_cons_iff in F as [Rc Rrest].
        apply sweep_expired; auto.
Qed.

(** Every force-remove of a sweep is for a listed container whose
    deadline had passed at a clock reading of that sweep. *)
Lemma SweepTrace_removed (ttl : Z) (containers : list Container) (tr : History) :
  SweepTrace ttl containers tr ->
  forall id res, In (EvContainerRemove id res) tr ->
  exists c t,
    In c containers /\ Container_ID c = id /\ In (EvNow t) tr /\
    Container_Created c * 1000000000 + ttl <= t.
Proof.
  induction 1 as [|c rest t tr Y S IH|c rest t res0 tr O S IH]; intros id res I.
  - destruct I.
  - destruct I as [I | I]; [discriminate |].
    destruct (IH _ _ I) as [c' [t' [Hc [Hid [Ht Hd]]]]].
    exists c', t'. repeat split; simpl; auto.
  - destruct I as [I | [I | I]]; [discriminate | |].
    + injection I as <- _. exists c, t. repeat split; simpl; auto.
    + destruct (IH _ _ I) as [c' [t' [Hc [Hid [Ht Hd]]]]].
      exists c', t'. repeat split; simpl; auto.
Qed.

(** C6.  The container sub-pass always starts with the prune of stopped
    containers filtered by the ownership label.  Without a [ContainerTTL]
    that prune is its only interaction: no container is listed and none
    force-removed.  With a [ContainerTTL] the sweep follows, and, the
    listed creation times being within 2^62 seconds of the epoch (where
    [time.Unix] does not wrap), it force-removes a listed container only
    if its creation time plus the TTL is not after the clock reading made
    for it: a container younger than the TTL is never removed. *)
Theorem C6_sweep_spares_containers_younger_than_ttl :
  forall (gc : GCConfig) (h : History),
    match ContainerTTL gc with
    | None =>
        exists pruned,
          history (triggerContainersGC gc) h =
            h ++ [EvContainersPrune LabelOwnership pruned]
    | Some ttl =>
        exists pruned tr,
          history (triggerContainersGC gc) h =
            h ++ EvContainersPrune LabelOwnership pruned :: tr /\
          (tr = [] \/
           (exists e, tr = [EvContainerList LabelOwnership (Err e)]) \/
           (exists containers sweep,
              tr = EvContainerList LabelOwnership (Ok containers) :: sweep /\
              (isDuration ttl -> Forall createdInRange containers ->
               SweepTrace ttl containers sweep)))
    end.
Proof.
  intros gc h.
  unfold history, triggerContainersGC, ContainersPrune, ContainerList.
  unfold bind, ask, ret. cbv beta.
  set (pruned := cli_ContainersPrune w h LabelOwnership).
  set (h1 := h ++ [EvContainersPrune LabelOwnership pruned]).
  destruct (ContainerTTL gc) as [ttl|].
  - exists pruned. destruct pruned as [out|e].
    + set (listed := cli_ContainerList w h1 LabelOwnership).
      set (h2 := h1 ++ [EvContainerList LabelOwnership listed]).
      destruct listed as [containers|e].
      * destruct (sweepContainers_spec ttl containers
                    (u64 (0 + u64 (Z.of_nat (List.length (ContainersDeleted out)))))
                    (u64 (0 + SpaceReclaimed out)) h2) as [[c s] [sw [E S]]].
        rewrite E. simpl.
        exists (EvContainerList LabelOwnership (Ok containers) :: sw). split.
        -- unfold h2, h1. now rewrite <- !app_assoc.
        -- right. right. now exists containers, sw.
      * simpl. exists [EvContainerList LabelOwnership (Err e)]. split.
        -- unfold h2, h1. now rewrite <- !app_assoc.
        -- right. left. now exists e.
    + simpl. exists []. split; [reflexivity | now left].
  - exists pruned. destruct pruned; reflexivity.
Qed.

(** *** triggerImagesGC: the threshold test and the eviction *)

(** The image references for which a history holds a removal attempt. *)
Fixpoint removalAttempts (tr : History) : list string :=
  match tr with
  | [] => []
  | EvImageRemove ref _ :: tr' => ref :: removalAttempts tr'
  | _ :: tr' => removalAttempts tr'
  end.

(** The number of image inspections of a history that failed. *)
Fixpoint inspectFailures (tr : History) : nat :=
  match tr with
  | [] => O
  | EvImageInspect _ (Err _) :: tr' => S (inspectFailures tr')
  | _ :: tr' => inspectFailures tr'
  end.

Lemma removalAttempts_app (h tr : History) :
  removalAttempts (h ++ tr) = removalAttempts h ++ removalAttempts tr.
Proof.
  induction h as [|ev h IH]; simpl; [reflexivity |].
  destruct ev; simpl; now rewrite ?IH.
Qed.

Lemma inspectFailures_app (h tr : History) :
  inspectFailures (h ++ tr) = (inspectFailures h + inspectFailures tr)%nat.
Proof.
  induction h as [|ev h IH]; simpl; [reflexivity |].
  destruct ev as [| | | | | | | | ? [?|?] | | | | | | | | | |]; simpl; now rewrite ?IH.
Qed.

Lemma removalAttempts_removed (tags : list string) :
  removalAttempts (map (fun tag => EvImageRemove tag None) tags) = tags.
Proof. induction tags as [|t rest IH]; simpl; now rewrite ?IH. Qed.

Lemma removalAttempts_tagRemovals (tags : list string) :
  forall answers,
    List.length answers = List.length tags ->
    removalAttempts (tagRemovals tags answers) = tags.
Proof.
  unfold tagRemovals.
  induction tags as [|t rest IH]; intros [|a answers] L; try discriminate; simpl.
  - reflexivity.
  - f_equal. apply IH. now injection L.
Qed.

Lemma inspectFailures_tagRemovals (tags : list string) :
  forall answers, inspectFailures (tagRemovals tags answers) = O.
Proof.
  unfold tagRemovals.
  induction tags as [|t rest IH]; intros [|a answers]; simpl; auto.
Qed.

Lemma RemovalPass_attempts images tr n space :
  RemovalPass images tr n space ->
  removalAttempts tr = flat_map ImageInspect_RepoTags images /\
  inspectFailures tr = O.
Proof.
  induction 1 as [|img rest tr n sp P [IH1 IH2]|img rest answers tr n sp L F P [IH1 IH2]];
    simpl; rewrite ?removalAttempts_app, ?inspectFailures_app, ?IH1, ?IH2.
  - auto.
  - rewrite removalAttempts_removed. split; [reflexivity |].
    rewrite <- (inspectFailures_tagRemovals (ImageInspect_RepoTags img)
                  (map (fun _ => None) (ImageInspect_RepoTags img))).
    unfold tagRemovals. f_equal.
    induction (ImageInspect_RepoTags img) as [|t l IHl]; simpl; now rewrite ?IHl.
  - rewrite removalAttempts_tagRemovals by exact L.
    now rewrite inspectFailures_tagRemovals.
Qed.

Lemma inspectCandidates_spec (candidates : list ImageSummary) :
  forall h : History,
  exists detailed tr,
    inspectCandidates candidates h = (detailed, h ++ tr) /\
    removalAttempts tr = [] /\
    (List.length detailed + inspectFailures tr = List.length candidates)%nat.
Proof.
  induction candidates as [|c rest IH]; intros h; simpl.
  - exists [], []. unfold ret. now rewrite app_nil_r.
  - unfold bind, ImageInspectWithRaw, ask.
    set (answer := cli_ImageInspectWithRaw w h (ImageSummary_ID c)).
    destruct (IH (h ++ [EvImageInspect (ImageSummary_ID c) answer]))
      as [detailed [tr [E [A F]]]].
    rewrite E, <- app_assoc. simpl.
    destruct answer as [i|e]; unfold ret.
    + exists (i :: detailed), (EvImageInspect (ImageSummary_ID c) (Ok i) :: tr).
      simpl. repeat split; auto.
    + exists detailed, (EvImageInspect (ImageSummary_ID c) (Err e) :: tr).
      simpl. repeat split; auto. lia.
Qed.

(** C7.  Without an [ImageGCCountThreshold] the image sub-pass returns at
    once and interacts with nothing: no image is listed, inspected or
    removed.  With a threshold (a value the conversion [int(...)] of line
    210 preserves) above the number of owned candidates, the listing is
    its only interaction and nothing is removed. *)
Theorem C7_no_image_removal_below_threshold :
  forall (gc : GCConfig) (h : History),
    (ImageGCCountThreshold gc = None ->
     triggerImagesGC gc h = (Returned (0, 0, None), h)) /\
    (forall threshold images,
       ImageGCCountThreshold gc = Some threshold ->
       - 2 ^ 63 <= threshold < 2 ^ 63 ->
       cli_ImageList w h = Ok images ->
       Z.of_nat (List.length (filter matched images)) < threshold ->
       triggerImagesGC gc h =
         (Returned (0, 0, None), h ++ [EvImageList (Ok images)]) /\
       removalAttempts (history (triggerImagesGC gc) h) = removalAttempts h).
Proof.
  intros gc h. unfold triggerImagesGC. split.
  - intros ->. reflexivity.
  - intros threshold images -> Range Listed Below.
    unfold history, bind, ImageList, ask. rewrite Listed.
    rewrite int_of_small by exact Range.
    apply Z.ltb_lt in Below. rewrite Below. unfold ret. simpl.
    split; [reflexivity |].
    rewrite removalAttempts_app. simpl. now rewrite app_nil_r.
Qed.

Lemma removeImages_spec (images : list ImageInspect) (h : History) :
  exists tr n space,
    RemovalPass images tr n space /\
    removeImages images h = ((u64 n, u64 space), h ++ tr).
Proof.
  unfold removeImages.
  destruct (removeImagesFrom_spec images 0 0 h) as [tr [n [sp [P E]]]].
  exists tr, n, sp. split; [exact P |].
  change 0 with (u64 0) at 1 2. exact E.
Qed.

Lemma sliceFrom_in_range {A : Type} (s : list A) (i : Z) :
  0 <= i <= Z.of_nat (List.length s) ->
  sliceFrom s i = Returned (skipn (Z.to_nat i) s).
Proof.
  intros [Lo Hi]. unfold sliceFrom.
  apply Z.ltb_ge in Lo. apply Z.ltb_ge in Hi. now rewrite Lo, Hi.
Qed.

Lemma NoDup_app_disjoint {A : Type} (l1 l2 : list A) :
  NoDup (l1 ++ l2) -> forall a, In a l1 -> ~ In a l2.
Proof.
  induction l1 as [|x l1 IH]; simpl; intros N a I; [destruct I |].
  inversion N as [|? ? NI N']; subst. destruct I as [-> | I].
  - intros I2. apply NI. apply in_or_app. now right.
  - now apply IH.
Qed.

(** The eviction step of lines 226-232 on the inspected candidates, once
    the threshold test of line 210 is passed. *)
Lemma eviction_spec (gc : GCConfig) (detailed : list ImageInspect) (h : History) :
  0 <= ImageBufferSize gc < 2 ^ 63 ->
  let B := ImageBufferSize gc in
  let D := Z.of_nat (List.length detailed) in
  exists retained victims count space tr,
    sort_Slice detailed = retained ++ victims /\
    Z.of_nat (List.length retained) = Z.min B D /\
    Z.of_nat (List.length victims) = Z.max 0 (D - B) /\
    removalAttempts tr = flat_map ImageInspect_RepoTags victims /\
    inspectFailures tr = O /\
    evict gc detailed h =
    (Returned (count, space, None), h ++ tr).
Proof.
  intros Range B D. subst B. unfold evict.
  assert (Len : List.length (sort_Slice detailed) = List.length detailed)
    by apply Permutation_length, sort_Slice_perm.
  rewrite int_of_small by lia. rewrite Len. fold D.
  destruct (ImageBufferSize gc <? D) eqn:Bigger.
  - apply Z.ltb_lt in Bigger.
    rewrite sliceFrom_in_range by (rewrite Len; fold D; lia).
    set (victims := skipn (Z.to_nat (ImageBufferSize gc)) (sort_Slice detailed)).
    destruct (removeImages_spec victims h) as [tr [n [sp [P E]]]].
    destruct (RemovalPass_attempts _ _ _ _ P) as [Att Fail].
    exists (firstn (Z.to_nat (ImageBufferSize gc)) (sort_Slice detailed)),
      victims, (u64 n), (u64 sp), tr.
    repeat split; auto.
    + now rewrite firstn_skipn.
    + rewrite length_firstn, Len. unfold D in *. lia.
    + unfold victims. rewrite length_skipn, Len. unfold D in *. lia.
    + unfold bind. now rewrite E.
  - apply Z.ltb_ge in Bigger.
    exists (sort_Slice detailed), [], 0, 0, [].
    repeat split; auto.
    + now rewrite app_nil_r.
    + rewrite Len. fold D. lia.
    + simpl. lia.
    + unfold ret. now rewrite app_nil_r.
Qed.

(** A buffer size whose conversion [int(...)] is negative passes the test
    of line 230 and makes the slice expression of line 231 panic. *)
Lemma evict_negative_buffer_panics (gc : GCConfig) (detailed : list ImageInspect)
  (h : History) :
  int_of (ImageBufferSize gc) < 0 ->
  evict gc detailed h = (Panicked "slice bounds out of range", h).
Proof.
  intros Neg. unfold evict, sliceFrom.
  assert (T : (int_of (ImageBufferSize gc) <?
               Z.of_nat (List.length (sort_Slice detailed))) = true)
    by (apply Z.ltb_lt; lia).
  rewrite T. apply Z.ltb_lt in Neg. now rewrite Neg.
Qed.

(** In an ascending order every element of a prefix was tagged no later
    than every element of the rest. *)
Lemma StronglySorted_app_le (l1 l2 : list ImageInspect) :
  StronglySorted ascending (l1 ++ l2) ->
  forall k v, In k l1 -> In v l2 -> LastTagTime k <= LastTagTime v.
Proof.
  induction l1 as [|x l1 IH]; simpl; intros S k v Ik Iv; [destruct Ik |].
  inversion S as [|? ? S' F]; subst. destruct Ik as [-> | Ik].
  - rewrite Forall_forall in F. apply F. apply in_or_app. now right.
  - now apply IH.
Qed.

(** A list cut in two with the first part as long as the cut allows. *)
Lemma split_at {A : Type} (n : nat) (l l1 l2 : list A) :
  l = l1 ++ l2 ->
  List.length l1 = Nat.min n (List.length l) ->
  firstn n l = l1 /\ skipn n l = l2.
Proof.
  intros E L. subst l. rewrite length_app in L.
  destruct (Nat.le_gt_cases n (List.length l1 + List.length l2)) as [Le | Gt].
  - assert (N : n = List.length l1) by lia. subst n.
    rewrite firstn_app, skipn_app, Nat.sub_diag, firstn_all, skipn_all.
    simpl. now rewrite app_nil_r.
  - assert (Z2 : List.length l2 = O) by lia.
    apply length_zero_iff_nil in Z2. subst l2. rewrite app_nil_r in *.
    split; [apply firstn_all2 | apply skipn_all2]; simpl in *; lia.
Qed.

(** C1 (amended).  When the image pass runs (a threshold is set, the
    listing succeeds and the number C of owned candidates is not below
    the threshold) with a buffer size B that is a non-negative [int], it
    inspects every candidate and goes on with the D = C - F whose
    inspection succeeded, F being the number of failed inspections.  It
    sorts them ascending by last-tag time, retains the first min(B, D) of
    that order, which are the least recently tagged, and attempts the
    removal of every repo tag of the max(0, D - B) others, which are the
    most recently tagged, in that order, and of nothing else; so it
    attempts C - B images exactly when no inspection fails.  No image
    attempted for removal is retained. *)
Theorem C1_image_gc_removes_all_but_buffer :
  forall (gc : GCConfig) (threshold : Z) (images : list ImageSummary) (h : History),
    ImageGCCountThreshold gc = Some threshold ->
    cli_ImageList w h = Ok images ->
    int_of threshold <= Z.of_nat (List.length (filter matched images)) ->
    0 <= ImageBufferSize gc < 2 ^ 63 ->
    let candidates := filter matched images in
    let inspected :=
      result (inspectCandidates candidates) (h ++ [EvImageList (Ok images)]) in
    let B := ImageBufferSize gc in
    let D := Z.of_nat (List.length inspected) in
    let h' := history (triggerImagesGC gc) h in
    let sorted := sort_Slice inspected in
    let retained := firstn (Z.to_nat B) sorted in
    let victims := skipn (Z.to_nat B) sorted in
    exists count space,
      StronglySorted ascending sorted /\
      Permutation sorted inspected /\
      (List.length inspected + inspectFailures h' =
       List.length candidates + inspectFailures h)%nat /\
      Z.of_nat (List.length retained) = Z.min B D /\
      Z.of_nat (List.length victims) = Z.max 0 (D - B) /\
      (forall k v, In k retained -> In v victims ->
                   LastTagTime k <= LastTagTime v) /\
      result (triggerImagesGC gc) h = Returned (count, space, None) /\
      removalAttempts h' =
        removalAttempts h ++ flat_map ImageInspect_RepoTags victims /\
      (NoDup (map ImageInspect_ID inspected) ->
       forall v k, In v victims -> In k retained ->
                   ImageInspect_ID v <> ImageInspect_ID k).
Proof.
  intros gc threshold images h Thr Listed AtLeast Range candidates inspected B D h'
    sorted retained victims.
  set (h1 := h ++ [EvImageList (Ok images)]) in *.
  destruct (inspectCandidates_spec candidates h1) as [detailed [itr [E [IA IF]]]].
  assert (I : inspected = detailed) by (unfold inspected, result; now rewrite E).
  destruct (eviction_spec gc detailed (h1 ++ itr) Range)
    as [kept [dropped [count [space [tr [S [LR [LV [Att [Fail Ev]]]]]]]]]].
  assert (Run : triggerImagesGC gc h =
                (Returned (count, space, None), (h1 ++ itr) ++ tr)).
  { unfold triggerImagesGC. rewrite Thr. unfold bind, ImageList, ask.
    rewrite Listed. apply Z.ltb_ge in AtLeast. rewrite AtLeast.
    fold candidates. fold h1. rewrite E. exact Ev. }
  assert (Cut : retained = kept /\ victims = dropped).
  { unfold retained, victims, sorted. rewrite I.
    apply split_at; [exact S |].
    rewrite (Permutation_length (sort_Slice_perm detailed)). unfold B. lia. }
  destruct Cut as [CutR CutV].
  assert (Whole : sorted = retained ++ victims)
    by (unfold retained, victims; now rewrite firstn_skipn).
  unfold h', history, result, D. rewrite Run, CutR, CutV, I. simpl.
  exists count, space.
  repeat split; auto.
  - unfold sorted. apply sort_Slice_sorted.
  - unfold sorted. rewrite I. apply sort_Slice_perm.
  - unfold h1. rewrite !inspectFailures_app, Fail. simpl. lia.
  - apply StronglySorted_app_le. rewrite <- S. apply sort_Slice_sorted.
  - unfold h1. rewrite !removalAttempts_app, IA, Att. simpl.
    now rewrite !app_nil_r.
  - intros N v k Iv Ik Same.
    assert (N' : NoDup (map ImageInspect_ID (kept ++ dropped))).
    { apply Permutation_NoDup with (l := map ImageInspect_ID detailed); [| exact N].
      apply Permutation_map. rewrite <- S. symmetry. apply sort_Slice_perm. }
    rewrite map_app in N'.
    apply (NoDup_app_disjoint _ _ N' (ImageInspect_ID k)).
    + now apply in_map.
    + rewrite <- Same. now apply in_map.
Qed.

(** Which end of the order the pass keeps.  The slice [detailed[B:]] of
    line 231 drops the head of the ascending order: the images kept are
    the first of that order, and every image attempted for removal was
    tagged no earlier than every image kept.  The doc comment of lines
    174-176 describes the pass this way; the comment of line 225 reads
    the other way round. *)
Lemma evict_keeps_the_head_of_the_order :
  forall (gc : GCConfig) (detailed : list ImageInspect) (h : History),
    0 <= ImageBufferSize gc < 2 ^ 63 ->
    exists retained victims,
      sort_Slice detailed = retained ++ victims /\
      Z.of_nat (List.length retained) =
        Z.min (ImageBufferSize gc) (Z.of_nat (List.length detailed)) /\
      removalAttempts (history (evict gc detailed) h) =
        removalAttempts h ++ flat_map ImageInspect_RepoTags victims /\
      (forall k v, In k retained -> In v victims ->
                   LastTagTime k <= LastTagTime v).
Proof.
  intros gc detailed h Range.
  destruct (eviction_spec gc detailed h Range)
    as [retained [victims [count [space [tr [S [LR [LV [Att [Fail Ev]]]]]]]]]].
  exists retained, victims. unfold history. rewrite Ev. simpl.
  repeat split; auto.
  - now rewrite removalAttempts_app, Att.
  - apply StronglySorted_app_le. rewrite <- S. apply sort_Slice_sorted.
Qed.

(** *** triggerGC: the two sub-passes of one trigger *)

(** The container sub-pass returns an error only when the prune or the
    listing fails, and then that failed call is its last interaction;
    failed force-removals are skipped over. *)
Lemma triggerContainersGC_error (gc : GCConfig) (h : History) (e : error) :
  snd (result (triggerContainersGC gc) h) = Some e ->
  (exists e', e = Wrap e' "failed to prune stopped containers" /\
     history (triggerContainersGC gc) h =
       h ++ [EvContainersPrune LabelOwnership (Err e')]) \/
  (exists e' out, e = Wrap e' "failed to list containers" /\
     history (triggerContainersGC gc) h =
       h ++ [EvContainersPrune LabelOwnership (Ok out);
             EvContainerList LabelOwnership (Err e')]).
Proof.
  unfold history, result, triggerContainersGC, ContainersPrune, ContainerList.
  unfold bind, ask, ret. cbv beta.
  destruct (cli_ContainersPrune w h LabelOwnership) as [out|pe].
  - destruct (ContainerTTL gc) as [ttl|]; [| discriminate].
    set (h1 := h ++ [EvContainersPrune LabelOwnership (Ok out)]).
    destruct (cli_ContainerList w h1 LabelOwnership) as [containers|le].
    + destruct (sweepContainers ttl containers _ _ _) as [[c s] h2]. discriminate.
    + simpl. intros [= <-]. right. exists le, out. split; [reflexivity |].
      unfold h1. now rewrite <- app_assoc.
  - simpl. intros [= <-]. left. now exists pe.
Qed.

(** The number of interactions of a history that belong to the image
    sub-pass: image listings, inspections and removals. *)
Fixpoint imageCalls (tr : History) : nat :=
  match tr with
  | [] => O
  | EvImageList _ :: tr' => S (imageCalls tr')
  | EvImageInspect _ _ :: tr' => S (imageCalls tr')
  | EvImageRemove _ _ :: tr' => S (imageCalls tr')
  | _ :: tr' => imageCalls tr'
  end.

Lemma imageCalls_app (h tr : History) :
  imageCalls (h ++ tr) = (imageCalls h + imageCalls tr)%nat.
Proof.
  induction h as [|ev h IH]; simpl; [reflexivity |].
  destruct ev; simpl; now rewrite ?IH.
Qed.

(** C5 (amended).  In a trigger that finds the runner not stopped, the
    container sub-pass runs first.  If it returns an error (its prune or
    its listing failed) the trigger ends there: [triggerGC] returns that
    error wrapped as "containers gc failed", and neither polls the context
    again nor starts the image sub-pass: no image is listed, inspected or
    removed.  If it returns no error (failures to remove single
    containers do not count) the context is polled again and, unless the
    runner is stopped, the image sub-pass runs in the same trigger. *)
Theorem C5_container_gc_error_ends_the_trigger :
  forall (gc : GCConfig) (h : History),
    ctx_Done w h = false ->
    let h0 := h ++ [EvIsStopped false] in
    let h1 := history (triggerContainersGC gc) h0 in
    match snd (result (triggerContainersGC gc) h0) with
    | Some e =>
        triggerGC gc h = (Returned (Some (Wrap e "containers gc failed")), h1) /\
        imageCalls h1 = imageCalls h /\
        ((exists e', e = Wrap e' "failed to prune stopped containers") \/
         (exists e', e = Wrap e' "failed to list containers"))
    | None =>
        if ctx_Done w h1
        then triggerGC gc h = (Returned None, h1 ++ [EvIsStopped true])
        else history (triggerGC gc) h =
             history (triggerImagesGC gc) (h1 ++ [EvIsStopped false])
    end.
Proof.
  intros gc h Alive h0 h1.
  pose proof (triggerContainersGC_error gc h0) as Failed.
  unfold h1, history, result, triggerGC in *.
  unfold bind, isStopped, ask, ret. cbv beta. rewrite Alive. fold h0.
  destruct (triggerContainersGC gc h0) as [[[count space] err] h2]. simpl in *.
  destruct err as [e|].
  { split; [reflexivity |].
    destruct (Failed e eq_refl) as [[e' [-> ->]] | [e' [out [-> ->]]]].
    - split; [unfold h0; rewrite !imageCalls_app; simpl; lia |].
      left. now exists e'.
    - split; [unfold h0; rewrite !imageCalls_app; simpl; lia |].
      right. now exists e'. }
  destruct (ctx_Done w h2); [reflexivity |].
  destruct (triggerImagesGC gc (h2 ++ [EvIsStopped false])) as [[[[c s] [e|]]|msg] h3];
    reflexivity.
Qed.

(** *** pull: the cache probe *)

(** C9.  Once the version resolves to a tag, [pull] probes for an image
    under the derived [chpImageName].  If the probe succeeds, [pull]
    returns nil and the probe is its last interaction: no image is pulled
    and none tagged.  Only if the probe fails does it pull the upstream
    image; when that pull succeeds it drains the stream and tags the
    upstream image as [chpImageName]. *)
Theorem C9_pull_hits_cache_without_pull_or_tag :
  forall (state : requestState) (h : History) (tag : ImageTag),
    tagStorage_Get w h (version state) = Some tag ->
    let imageName := FullImageName (repository r) (version state) in
    let name := PlaygroundImageName (repository r) (Digest tag) in
    let state' := set_chpImageName state name in
    let h1 := h ++ [EvTagGet (version state) (Some tag)] in
    let probe := cli_ImageInspectWithRaw w h1 name in
    let h2 := h1 ++ [EvImageInspect name probe] in
    match probe with
    | Ok _ => pull state h = ((state', None), h2)
    | Err _ =>
        let pulled := cli_ImagePull w h2 imageName in
        let h3 := h2 ++ [EvImagePull imageName pulled] in
        match pulled with
        | Some e =>
            pull state h = ((state', Some (Wrap e "docker pull failed")), h3)
        | None =>
            exists read tagged,
              pull state h =
                ((state',
                  match tagged with
                  | Some e => Some (Wrap e "failed to tag image")
                  | None => None
                  end),
                 h3 ++ [EvReadAll read; EvImageTag imageName name tagged])
        end
    end.
Proof.
  intros state h tag Resolved imageName name state' h1 probe h2.
  unfold pull, checkIfImageExists, TagGet, ImageInspectWithRaw, ImagePull,
    ReadAll, ImageTagCall.
  unfold bind, ask, ret. cbv beta. rewrite Resolved. fold name. fold state'.
  change (chpImageName state') with name. fold h1. fold probe. fold h2.
  destruct probe as [i|pe]; [reflexivity |].
  fold imageName. cbv zeta.
  destruct (cli_ImagePull w h2 imageName) as [e|]; [reflexivity |].
  set (h3 := h2 ++ [EvImagePull imageName None]).
  exists (io_ReadAll w h3),
    (cli_ImageTag w (h3 ++ [EvReadAll (io_ReadAll w h3)]) imageName name).
  rewrite <- app_assoc. simpl.
  destruct (cli_ImageTag w _ imageName name); reflexivity.
Qed.

(** *** runQuery: the retry loop *)

(** The number of exec sessions a history opens. *)
Fixpoint execCalls (tr : History) : nat :=
  match tr with
  | [] => O
  | EvExecCreate _ _ _ :: tr' => S (execCalls tr')
  | _ :: tr' => execCalls tr'
  end.

Lemma execCalls_app (h tr : History) :
  execCalls (h ++ tr) = (execCalls h + execCalls tr)%nat.
Proof.
  induction h as [|ev h IH]; simpl; [reflexivity |].
  destruct ev; simpl; now rewrite ?IH.
Qed.

Lemma exec_calls_once (state : requestState) (h : History) :
  execCalls (history (exec state) h) = S (execCalls h).
Proof.
  unfold history, exec, ContainerExecCreate, ContainerExecAttach, execSelect.
  unfold bind, ask, ret. cbv beta.
  destruct (cli_ContainerExecCreate w h _ _) as [execID|e]; simpl.
  - match goal with |- context [cli_ContainerExecAttach w ?h' execID] =>
      destruct (cli_ContainerExecAttach w h' execID) end; simpl.
    + rewrite !execCalls_app. simpl. lia.
    + match goal with |- context [exec_select w ?h'] =>
        destruct (exec_select w h') as [[[out errout]|e]|e] end; simpl;
        rewrite !execCalls_app; simpl; lia.
  - rewrite execCalls_app. simpl. lia.
Qed.

(** [Refused state n h stdout stderr h']: from history [h] on, [n] exec
    attempts in a row return without error and with the sentinel on
    stderr, each followed by the retry delay; [stdout] and [stderr] are
    the output of the last of them and [h'] is the history they leave. *)
Inductive Refused (state : requestState)
  : nat -> History -> string -> string -> History -> Prop :=
| refused_last h stdout stderr h1 :
    exec state h = ((stdout, stderr, None), h1) ->
    Contains stderr connectionRefused = true ->
    Refused state 1 h stdout stderr (h1 ++ [EvSleep (ExecRetryDelay (cfg r))])
| refused_again n h stdout0 stderr0 h1 stdout stderr h' :
    exec state h = ((stdout0, stderr0, None), h1) ->
    Contains stderr0 connectionRefused = true ->
    Refused state (S n) (h1 ++ [EvSleep (ExecRetryDelay (cfg r))]) stdout stderr h' ->
    Refused state (S (S n)) h stdout stderr h'.

Lemma runQueryLoop_refused (state : requestState) (n : nat) :
  forall h stdout stderr h' out0 err0,
    Refused state n h stdout stderr h' ->
    runQueryLoop n state out0 err0 h = ((stdout, stderr, None), h') /\
    execCalls h' = (execCalls h + n)%nat.
Proof.
  intros h stdout stderr h' out0 err0 R. revert out0 err0.
  induction R as [h so se h1 E C | n h so0 se0 h1 so se h' E C R IH];
    intros out0 err0; simpl.
  - unfold bind at 1. rewrite E. unfold checkIfQueryExecuted. rewrite C. simpl.
    unfold bind, Sleep, emit, ret. split; [reflexivity |].
    pose proof (exec_calls_once state h) as X. unfold history in X.
    rewrite E in X. simpl in X. rewrite execCalls_app, X. simpl. lia.
  - unfold bind at 1. rewrite E. unfold checkIfQueryExecuted. rewrite C.
    simpl negb. cbv iota. unfold bind at 1. unfold Sleep, emit.
    destruct (IH so0 se0) as [L X]. split; [exact L |].
    rewrite X, execCalls_app.
    pose proof (exec_calls_once state h) as Y. unfold history in Y.
    rewrite E in Y. simpl in Y. rewrite Y. simpl. lia.
Qed.

Lemma Refused_sentinel (state : requestState) n h stdout stderr h' :
  Refused state n h stdout stderr h' ->
  Contains stderr connectionRefused = true.
Proof. induction 1; assumption. Qed.

Lemma Contains_nonempty (s substr : string) :
  Contains s substr = true -> substr <> "" -> s <> "".
Proof.
  intros C N ->. simpl in C. destruct substr; [now apply N | discriminate].
Qed.

(** C4 (amended).  If each of the [MaxExecRetries] exec attempts returns without
    error and with the readiness sentinel on stderr, [runQuery] makes
    exactly that many attempts and returns, with a nil error, the output
    of the last one: its stdout, a line feed and its stderr (which holds
    the sentinel and so is not empty).  In general, whenever the loop ends
    without error, the output is stdout alone if the last stderr is
    empty, and stdout, a line feed and stderr otherwise. *)
Theorem C4_retries_exhausted_returns_last_output :
  forall (state : requestState) (h : History),
    (forall stdout stderr h',
       Refused state (Z.to_nat (MaxExecRetries (cfg r))) h stdout stderr h' ->
       runQuery state h = (((stdout ++ LF ++ stderr)%string, None), h') /\
       execCalls h' = (execCalls h + Z.to_nat (MaxExecRetries (cfg r)))%nat) /\
    (forall stdout stderr h',
       runQueryLoop (Z.to_nat (MaxExecRetries (cfg r))) state "" "" h =
         ((stdout, stderr, None), h') ->
       runQuery state h =
         ((if String.eqb stderr "" then stdout
           else (stdout ++ LF ++ stderr)%string, None), h')).
Proof.
  intros state h. split.
  - intros stdout stderr h' R.
    destruct (runQueryLoop_refused state _ h stdout stderr h' "" "" R) as [L X].
    split; [| exact X].
    unfold runQuery, bind. rewrite L.
    assert (N : stderr <> "").
    { apply (Contains_nonempty _ _ (Refused_sentinel _ _ _ _ _ _ R)).
      unfold connectionRefused. discriminate. }
    apply String.eqb_neq in N. now rewrite N.
  - intros stdout stderr h' L. unfold runQuery, bind. rewrite L.
    destruct (String.eqb stderr ""); reflexivity.
Qed.


(** ** Further properties of the collector *)

(** *** triggerContainersGC: what the sweep counts *)

(** [SweepTally containers tr n space]: in the sweep [tr] over
    [containers], [n] force-removes succeeded and [space] is the sum of
    the [SizeRw] of the containers they removed.  A container that is
    spared, or whose force-remove fails, adds nothing, and the sweep goes
    on to the next container in either case. *)
Inductive SweepTally : list Container -> History -> Z -> Z -> Prop :=
| tally_end : SweepTally [] [] 0 0
| tally_spared c rest (t : Time) tr n space :
    SweepTally rest tr n space ->
    SweepTally (c :: rest) (EvNow t :: tr) n space
| tally_failed c rest (t : Time) e tr n space :
    SweepTally rest tr n space ->
    SweepTally (c :: rest)
      (EvNow t :: EvContainerRemove (Container_ID c) (Some e) :: tr) n space
| tally_removed c rest (t : Time) tr n space :
    SweepTally rest tr n space ->
    SweepTally (c :: rest)
      (EvNow t :: EvContainerRemove (Container_ID c) None :: tr)
      (n + 1) (space + u64 (Container_SizeRw c)).

Lemma SweepTally_bound containers tr n space :
  SweepTally containers tr n space ->
  0 <= n <= Z.of_nat (List.length containers).
Proof.
  induction 1; simpl List.length; rewrite ?Nat2Z.inj_succ; lia.
Qed.

Lemma sweepContainers_tally (ttl : Z) (containers : list Container) :
  forall (count space : Z) (h : History),
  exists tr n sp,
    SweepTally containers tr n sp /\
    sweepContainers ttl containers (u64 count) (u64 space) h =
      ((u64 (count + n), u64 (space + sp)), h ++ tr).
Proof.
  induction containers as [|c rest IH]; intros count space h; simpl.
  - exists [], 0, 0. split; [constructor |].
    unfold ret. now rewrite !Z.add_0_r, app_nil_r.
  - unfold bind at 1. unfold Now, ask. set (t := time_Now w h).
    destruct (Time_Before t (deadline ttl c)).
    + destruct (IH count space (h ++ [EvNow t])) as [tr [n [sp [T E]]]].
      exists (EvNow t :: tr), n, sp. split; [now constructor |].
      now rewrite E, <- app_assoc.
    + unfold bind, forceRemoveContainer, ContainerRemove, ask.
      set (h1 := h ++ [EvNow t]).
      destruct (cli_ContainerRemove w h1 (Container_ID c)) as [e|].
      * destruct (IH count space (h1 ++ [EvContainerRemove (Container_ID c) (Some e)]))
          as [tr [n [sp [T E]]]].
        exists (EvNow t :: EvContainerRemove (Container_ID c) (Some e) :: tr), n, sp.
        split; [now constructor |].
        rewrite E. unfold h1. now rewrite <- !app_assoc.
      * rewrite !u64_add_l.
        destruct (IH (count + 1) (space + u64 (Container_SizeRw c))
                    (h1 ++ [EvContainerRemove (Container_ID c) None]))
          as [tr [n [sp [T E]]]].
        exists (EvNow t :: EvContainerRemove (Container_ID c) None :: tr),
          (n + 1), (sp + u64 (Container_SizeRw c)).
        split; [now constructor |].
        rewrite E. unfold h1. rewrite <- !app_assoc. simpl.
        replace (count + 1 + n) with (count + (n + 1)) by lia.
        replace (space + u64 (Container_SizeRw c) + sp)
          with (space + (sp + u64 (Container_SizeRw c))) by lia.
        reflexivity.
Qed.

(** The container sub-pass reports the containers the prune deleted plus
    the containers its sweep force-removed with success, and the space of
    both; a container whose force-remove fails is not counted and does
    not stop the sweep. *)
Theorem containers_gc_counts_pruned_and_removed :
  forall (gc : GCConfig) (ttl : Z) (out : ContainersPruneReport)
         (containers : list Container) (h : History),
    ContainerTTL gc = Some ttl ->
    cli_ContainersPrune w h LabelOwnership = Ok out ->
    cli_ContainerList w (h ++ [EvContainersPrune LabelOwnership (Ok out)])
      LabelOwnership = Ok containers ->
    exists sweep n space,
      SweepTally containers sweep n space /\
      0 <= n <= Z.of_nat (List.length containers) /\
      triggerContainersGC gc h =
        ((u64 (Z.of_nat (List.length (ContainersDeleted out)) + n),
          u64 (SpaceReclaimed out + space), None),
         h ++ [EvContainersPrune LabelOwnership (Ok out);
               EvContainerList LabelOwnership (Ok containers)] ++ sweep).
Proof.
  intros gc ttl out containers h TTL Pruned Listed.
  unfold triggerContainersGC, ContainersPrune, ContainerList.
  unfold bind, ask, ret. cbv beta. rewrite Pruned, TTL, Listed.
  rewrite !Z.add_0_l.
  destruct (sweepContainers_tally ttl containers
              (u64 (Z.of_nat (List.length (ContainersDeleted out))))
              (SpaceReclaimed out)
              ((h ++ [EvContainersPrune LabelOwnership (Ok out)]) ++
               [EvContainerList LabelOwnership (Ok containers)]))
    as [sweep [n [sp [T E]]]].
  exists sweep, n, sp. split; [exact T |].
  split; [exact (SweepTally_bound _ _ _ _ T) |].
  rewrite E, u64_add_l, <- !app_assoc. reflexivity.
Qed.

(** *** triggerImagesGC: what the pass touches *)

(** The references a history inspects, and the images its successful
    inspections reported. *)
Fixpoint inspectedRefs (tr : History) : list string :=
  match tr with
  | [] => []
  | EvImageInspect ref _ :: tr' => ref :: inspectedRefs tr'
  | _ :: tr' => inspectedRefs tr'
  end.

Fixpoint inspectedImages (tr : History) : list ImageInspect :=
  match tr with
  | [] => []
  | EvImageInspect _ (Ok i) :: tr' => i :: inspectedImages tr'
  | _ :: tr' => inspectedImages tr'
  end.

Lemma inspectedRefs_app (h tr : History) :
  inspectedRefs (h ++ tr) = inspectedRefs h ++ inspectedRefs tr.
Proof.
  induction h as [|ev h IH]; simpl; [reflexivity |].
  destruct ev; simpl; now rewrite ?IH.
Qed.

Lemma inspectedImages_app (h tr : History) :
  inspectedImages (h ++ tr) = inspectedImages h ++ inspectedImages tr.
Proof.
  induction h as [|ev h IH]; simpl; [reflexivity |].
  destruct ev as [| | | | | | | | ? [?|?] | | | | | | | | | |]; simpl; now rewrite ?IH.
Qed.

Lemma inspectCandidates_refs (candidates : list ImageSummary) :
  forall h : History,
  exists tr,
    inspectCandidates candidates h = (inspectedImages tr, h ++ tr) /\
    inspectedRefs tr = map ImageSummary_ID candidates /\
    removalAttempts tr = [].
Proof.
  induction candidates as [|c rest IH]; intros h; simpl.
  - exists []. unfold ret. now rewrite app_nil_r.
  - unfold bind, ImageInspectWithRaw, ask.
    set (answer := cli_ImageInspectWithRaw w h (ImageSummary_ID c)).
    destruct (IH (h ++ [EvImageInspect (ImageSummary_ID c) answer]))
      as [tr [E [R A]]].
    rewrite E, <- app_assoc. simpl.
    exists (EvImageInspect (ImageSummary_ID c) answer :: tr).
    destruct answer as [i|e]; unfold ret; simpl; rewrite R; auto.
Qed.

Lemma RemovalPass_no_inspection images tr n space :
  RemovalPass images tr n space ->
  inspectedRefs tr = [] /\ inspectedImages tr = [].
Proof.
  assert (T : forall tags answers,
             inspectedRefs (tagRemovals tags answers) = [] /\
             inspectedImages (tagRemovals tags answers) = []).
  { unfold tagRemovals. induction tags as [|t l IHl]; intros [|a answers]; simpl; auto. }
  assert (T' : forall tags,
             inspectedRefs (map (fun tag => EvImageRemove tag None) tags) = [] /\
             inspectedImages (map (fun tag => EvImageRemove tag None) tags) = []).
  { induction tags as [|t l IHl]; simpl; auto. }
  induction 1 as [|img rest tr n sp P [IH1 IH2]|img rest answers tr n sp L F P [IH1 IH2]];
    simpl; rewrite ?inspectedRefs_app, ?inspectedImages_app, ?IH1, ?IH2; auto.
  - destruct (T' (ImageInspect_RepoTags img)) as [-> ->]. auto.
  - destruct (T (ImageInspect_RepoTags img) answers) as [-> ->]. auto.
Qed.

Lemma In_skipn {A : Type} (n : nat) (l : list A) (x : A) :
  In x (skipn n l) -> In x l.
Proof.
  intros I. rewrite <- (firstn_skipn n l). apply in_or_app. now right.
Qed.

(** Whatever the buffer size, the eviction step removes only tags of the
    images it was given, inspects nothing, and returns no error. *)
Lemma evict_frame (gc : GCConfig) (detailed : list ImageInspect) (h : History) :
  exists victims tr,
    (forall v, In v victims -> In v detailed) /\
    history (evict gc detailed) h = h ++ tr /\
    removalAttempts tr = flat_map ImageInspect_RepoTags victims /\
    inspectedRefs tr = [] /\
    (forall c s e, result (evict gc detailed) h <> Returned (c, s, Some e)).
Proof.
  unfold history, result, evict.
  destruct (int_of (ImageBufferSize gc) <? Z.of_nat (List.length (sort_Slice detailed))).
  - unfold sliceFrom.
    destruct ((int_of (ImageBufferSize gc) <? 0) ||
              (Z.of_nat (List.length (sort_Slice detailed)) <?
               int_of (ImageBufferSize gc))).
    + exists [], []. unfold ret. simpl. rewrite app_nil_r.
      repeat split; auto; try contradiction. discriminate.
    + set (victims := skipn (Z.to_nat (int_of (ImageBufferSize gc))) (sort_Slice detailed)).
      destruct (removeImages_spec victims h) as [tr [n [sp [P E]]]].
      destruct (RemovalPass_attempts _ _ _ _ P) as [Att _].
      destruct (RemovalPass_no_inspection _ _ _ _ P) as [NoRef _].
      exists victims, tr. unfold bind. rewrite E. simpl.
      repeat split; auto; try discriminate.
      intros v Iv. apply (Permutation_in _ (sort_Slice_perm detailed)).
      exact (In_skipn _ _ _ Iv).
  - exists [], []. unfold ret. simpl. rewrite app_nil_r.
    repeat split; auto; try contradiction. discriminate.
Qed.

Lemma matched_owned (img : ImageSummary) :
  matched img = true ->
  exists tag, In tag (ImageSummary_RepoTags img) /\
              IsPlaygroundImageName tag (repository r) = true.
Proof. unfold matched. intros M. now apply existsb_exists in M. Qed.

(** Once the listing has succeeded, the image sub-pass inspects either
    nothing or exactly the listed images that carry a playground tag of
    the repository, in the order of the listing; and every removal it
    attempts is for a repo tag that one of these inspections reported. *)
Theorem images_gc_touches_only_owned_images :
  forall (gc : GCConfig) (threshold : Z) (images : list ImageSummary) (h : History),
    ImageGCCountThreshold gc = Some threshold ->
    cli_ImageList w h = Ok images ->
    exists tr,
      history (triggerImagesGC gc) h = h ++ EvImageList (Ok images) :: tr /\
      (inspectedRefs tr = [] \/
       inspectedRefs tr = map ImageSummary_ID (filter matched images)) /\
      (forall ref, In ref (inspectedRefs tr) ->
         exists img tag,
           In img images /\ ImageSummary_ID img = ref /\
           In tag (ImageSummary_RepoTags img) /\
           IsPlaygroundImageName tag (repository r) = true) /\
      (forall ref, In ref (removalAttempts tr) ->
         exists i, In i (inspectedImages tr) /\ In ref (ImageInspect_RepoTags i)).
Proof.
  intros gc threshold images h Thr Listed.
  assert (Owned : forall ref, In ref (map ImageSummary_ID (filter matched images)) ->
            exists img tag,
              In img images /\ ImageSummary_ID img = ref /\
              In tag (ImageSummary_RepoTags img) /\
              IsPlaygroundImageName tag (repository r) = true).
  { intros ref I. apply in_map_iff in I as [img [<- I]].
    apply filter_In in I as [I M]. destruct (matched_owned img M) as [tag [T O]].
    now exists img, tag. }
  unfold history, triggerImagesGC. rewrite Thr. unfold bind, ImageList, ask.
  rewrite Listed.
  destruct (Z.of_nat (List.length (filter matched images)) <? int_of threshold).
  - exists []. unfold ret. simpl. repeat split; auto; contradiction.
  - set (h1 := h ++ [EvImageList (Ok images)]).
    destruct (inspectCandidates_refs (filter matched images) h1) as [itr [E [R A]]].
    rewrite E.
    destruct (evict_frame gc (inspectedImages itr) (h1 ++ itr))
      as [victims [etr [Sub [H [Att [NoRef _]]]]]].
    unfold history in H. rewrite H.
    exists (itr ++ etr). unfold h1. rewrite <- !app_assoc. simpl.
    rewrite inspectedRefs_app, removalAttempts_app, inspectedImages_app, NoRef, A, R, Att.
    rewrite app_nil_r. simpl.
    repeat split; auto.
    intros ref I. apply in_flat_map in I as [i [Iv It]].
    exists i. split; [| exact It]. apply in_or_app. left. now apply Sub.
Qed.

(** *** triggerGC: which failures surface *)

Lemma triggerImagesGC_error (gc : GCConfig) (h : History) c s (e : error) :
  result (triggerImagesGC gc) h = Returned (c, s, Some e) ->
  exists e', cli_ImageList w h = Err e' /\ e = Wrap e' "failed to list images".
Proof.
  unfold result, triggerImagesGC.
  destruct (ImageGCCountThreshold gc) as [threshold|]; [| discriminate].
  unfold bind, ImageList, ask.
  destruct (cli_ImageList w h) as [images|le].
  - destruct (Z.of_nat (List.length (filter matched images)) <? int_of threshold);
      [discriminate |].
    destruct (inspectCandidates (filter matched images) _) as [detailed h2] eqn:E.
    intros X. exfalso.
    destruct (evict_frame gc detailed h2) as [_ [_ [_ [_ [_ [_ No]]]]]].
    exact (No c s e X).
  - simpl. intros [= _ _ <-]. now exists le.
Qed.

(** A trigger returns an error only when the prune of stopped containers,
    the listing of containers or the listing of images failed, wrapped
    with the name of the sub-pass; a failed force-remove, image
    inspection or image removal never makes a trigger fail. *)
Theorem gc_trigger_fails_only_on_prune_or_listing :
  forall (gc : GCConfig) (h : History) (e : error),
    result (triggerGC gc) h = Returned (Some e) ->
    exists e',
      e = Wrap (Wrap e' "failed to prune stopped containers") "containers gc failed" \/
      e = Wrap (Wrap e' "failed to list containers") "containers gc failed" \/
      e = Wrap (Wrap e' "failed to list images") "images gc failed".
Proof.
  intros gc h e. unfold result, triggerGC.
  unfold bind, isStopped, ask, ret. cbv beta.
  destruct (ctx_Done w h); [discriminate |].
  set (h0 := h ++ [EvIsStopped false]).
  pose proof (triggerContainersGC_error gc h0) as CErr. unfold result in CErr.
  destruct (triggerContainersGC gc h0) as [[[count space] err] h1]. simpl in *.
  destruct err as [ce|].
  - intros [= <-].
    destruct (CErr ce eq_refl) as [[e' [-> _]] | [e' [out [-> _]]]];
      exists e'; auto.
  - destruct (ctx_Done w h1); [discriminate |].
    pose proof (triggerImagesGC_error gc (h1 ++ [EvIsStopped false])) as IErr.
    unfold result in IErr.
    destruct (triggerImagesGC gc (h1 ++ [EvIsStopped false]))
      as [[[[c s] [ie|]]|msg] h2]; simpl in *; try discriminate.
    intros [= <-]. destruct (IErr c s ie eq_refl) as [e' [_ ->]].
    exists e'. auto.
Qed.

(** *** StartGarbageCollector (lines 66-97) *)

(** A computation only ever appends to the history. *)
Definition extends {A : Type} (m : M A) : Prop :=
  forall h, exists tr, snd (m h) = h ++ tr.

Lemma extends_ret {A : Type} (a : A) : extends (ret a).
Proof. intros h. exists []. simpl. now rewrite app_nil_r. Qed.

Lemma extends_ask {A : Type} (oracle : History -> A) (ev : A -> Event) :
  extends (ask oracle ev).
Proof. intros h. now exists [ev (oracle h)]. Qed.

Lemma extends_emit (ev : Event) : extends (emit ev).
Proof. intros h. now exists [ev]. Qed.

Lemma extends_bind {A B : Type} (m : M A) (k : A -> M B) :
  extends m -> (forall a, extends (k a)) -> extends (bind m k).
Proof.
  intros Hm Hk h. unfold bind. destruct (Hm h) as [tr1 E1].
  destruct (m h) as [a h1]. simpl in E1. subst h1.
  destruct (Hk a (h ++ tr1)) as [tr2 E2]. exists (tr1 ++ tr2).
  now rewrite E2, app_assoc.
Qed.

Lemma triggerContainersGC_extends (gc : GCConfig) : extends (triggerContainersGC gc).
Proof.
  unfold triggerContainersGC.
  apply extends_bind; [apply extends_ask | intros [out|e]; [| apply extends_ret]].
  destruct (ContainerTTL gc) as [ttl|]; [| apply extends_ret].
  apply extends_bind; [apply extends_ask | intros [containers|e]; [| apply extends_ret]].
  apply extends_bind; [| intros [c s]; apply extends_ret].
  intros h.
  destruct (sweepContainers_spec ttl containers
              (u64 (0 + u64 (Z.of_nat (List.length (ContainersDeleted out)))))
              (u64 (0 + SpaceReclaimed out)) h) as [res [tr [E _]]].
  exists tr. now rewrite E.
Qed.

Lemma triggerImagesGC_extends (gc : GCConfig) : extends (triggerImagesGC gc).
Proof.
  unfold triggerImagesGC.
  destruct (ImageGCCountThreshold gc) as [threshold|]; [| apply extends_ret].
  apply extends_bind; [apply extends_ask | intros [images|e]; [| apply extends_ret]].
  destruct (_ <? _); [apply extends_ret |].
  apply extends_bind.
  - intros h. destruct (inspectCandidates_refs (filter matched images) h) as [tr [E _]].
    exists tr. now rewrite E.
  - intros detailed h. destruct (evict_frame gc detailed h) as [_ [tr [_ [E _]]]].
    now exists tr.
Qed.

Lemma triggerGC_extends (gc : GCConfig) : extends (triggerGC gc).
Proof.
  unfold triggerGC, isStopped.
  apply extends_bind; [apply extends_ask | intros [|]; [apply extends_ret |]].
  apply extends_bind; [apply triggerContainersGC_extends | intros [[c s] [e|]]];
    [apply extends_ret |].
  apply extends_bind; [apply extends_ask | intros [|]; [apply extends_ret |]].
  apply extends_bind; [apply triggerImagesGC_extends |].
  intros [[[c' s'] [e|]]|msg]; apply extends_ret.
Qed.

(** How the [select] of lines 88-93 resolves at a given history: [true]
    when [r.ctx.Done()] is ready, [false] when the ticker fires.  Between
    two selects a trigger runs, which always adds to the history. *)
Variable gc_select : History -> bool.

(** How a run of the collector loop stands after a number of turns. *)
Inductive LoopEnd : Type :=
| LoopReturned                 (* line 90, or line 70 *)
| LoopRunning                  (* still in the loop of line 87 *)
| LoopPanicked (msg : string).

(** The closure [trigger] of lines 76-81: the error of [triggerGC] is
    logged and dropped; only a panic is not. *)
Definition trigger (gc : GCConfig) : M (Outcome unit) :=
  res <- triggerGC gc ;;
  match res with
  | Panicked msg => ret (Panicked msg)
  | Returned _ => ret (Returned tt)
  end.

(** The loop of lines 87-96, followed for at most [turns] iterations. *)
Fixpoint collectorLoop (gc : GCConfig) (turns : nat) : M LoopEnd :=
  match turns with
  | O => ret LoopRunning
  | S turns' =>
      fun h =>
        if gc_select h then (LoopReturned, h)
        else
          (res <- trigger gc ;;
           match res with
           | Panicked msg => ret (LoopPanicked msg)
           | Returned _ => collectorLoop gc turns'
           end) h
  end.

(** [time.NewTicker] (line 85) panics unless the interval is positive. *)
Definition StartGarbageCollector (turns : nat) : M LoopEnd :=
  match GC (cfg r) with
  | None => ret LoopReturned
  | Some gc =>
      res <- trigger gc ;;
      match res with
      | Panicked msg => ret (LoopPanicked msg)
      | Returned _ =>
          if TriggerFrequency gc <=? 0
          then ret (LoopPanicked "non-positive interval for NewTicker")
          else collectorLoop gc turns
      end
  end.

Lemma trigger_extends (gc : GCConfig) : extends (trigger gc).
Proof.
  unfold trigger. apply extends_bind; [apply triggerGC_extends |].
  intros [o|msg]; apply extends_ret.
Qed.

Lemma trigger_history (gc : GCConfig) (h : History) :
  history (trigger gc) h = history (triggerGC gc) h.
Proof.
  unfold history, trigger, bind. destruct (triggerGC gc h) as [[o|msg] h1]; reflexivity.
Qed.

Lemma collectorLoop_extends (gc : GCConfig) (turns : nat) :
  extends (collectorLoop gc turns).
Proof.
  induction turns as [|n IH]; simpl; [apply extends_ret |].
  intros h. destruct (gc_select h).
  - exists []. simpl. now rewrite app_nil_r.
  - revert h. apply extends_bind; [apply trigger_extends |].
    intros [o|msg]; [exact IH | apply extends_ret].
Qed.

Lemma collectorLoop_returns_on_done (gc : GCConfig) (turns : nat) :
  forall h,
    result (collectorLoop gc turns) h = LoopReturned ->
    gc_select (history (collectorLoop gc turns) h) = true.
Proof.
  unfold result, history.
  induction turns as [|n IH]; intros h; simpl; [discriminate |].
  destruct (gc_select h) eqn:Done; [intros _; exact Done |].
  unfold bind. destruct (trigger gc h) as [[o|msg] h1]; [apply IH | discriminate].
Qed.

(** Without a GC configuration the collector returns at once and never
    interacts with anything.  With one, it runs a first trigger before
    waiting for any tick; a trigger frequency that is not positive then
    makes [time.NewTicker] panic.  The collector leaves its loop only
    through the [select] branch of the runner's context: whatever errors
    the triggers return, it returns only at a history where that context
    is done; and when that context is done at the first [select], it
    returns there without a second trigger. *)
Theorem collector_stops_only_when_context_is_done :
  forall (turns : nat) (h : History),
    match GC (cfg r) with
    | None => StartGarbageCollector turns h = (LoopReturned, h)
    | Some gc =>
        (exists tr,
           history (StartGarbageCollector turns) h =
             history (triggerGC gc) h ++ tr) /\
        (result (StartGarbageCollector turns) h = LoopReturned ->
         gc_select (history (StartGarbageCollector turns) h) = true) /\
        (forall o, result (trigger gc) h = Returned o ->
           TriggerFrequency gc <= 0 ->
           StartGarbageCollector turns h =
             (LoopPanicked "non-positive interval for NewTicker",
              history (triggerGC gc) h)) /\
        (forall o, result (trigger gc) h = Returned o ->
           0 < TriggerFrequency gc ->
           gc_select (history (triggerGC gc) h) = true ->
           StartGarbageCollector (S turns) h =
             (LoopReturned, history (triggerGC gc) h))
    end.
Proof.
  intros turns h. unfold StartGarbageCollector.
  destruct (GC (cfg r)) as [gc|]; [| reflexivity].
  rewrite <- trigger_history. unfold history, result, bind.
  destruct (trigger gc h) as [[o|msg] h1]; simpl.
  - destruct (TriggerFrequency gc <=? 0) eqn:F.
    + apply Z.leb_le in F. repeat split.
      * exists []. unfold ret. simpl. now rewrite app_nil_r.
      * discriminate.
      * intros _ _ F'. lia.
    + apply Z.leb_gt in F. repeat split.
      * destruct (collectorLoop_extends gc turns h1) as [tr E]. now exists tr.
      * apply collectorLoop_returns_on_done.
      * intros _ _ F'. lia.
      * intros _ _ _ Done. now rewrite Done.
  - repeat split; try discriminate. exists []. now rewrite app_nil_r.
Qed.

(** ** Further properties of the request path *)

(** [adds P m]: the computation [m] only appends events that satisfy
    [P]. *)
Definition adds {A : Type} (P : Event -> Prop) (m : M A) : Prop :=
  forall h, exists tr, snd (m h) = h ++ tr /\ Forall P tr.

Lemma adds_ret {A : Type} (P : Event -> Prop) (a : A) : adds P (ret a).
Proof. intros h. exists []. simpl. now rewrite app_nil_r. Qed.

Lemma adds_ask {A : Type} (P : Event -> Prop) (oracle : History -> A)
  (ev : A -> Event) :
  (forall a, P (ev a)) -> adds P (ask oracle ev).
Proof. intros H h. exists [ev (oracle h)]. split; [reflexivity | auto]. Qed.

Lemma adds_emit (P : Event -> Prop) (ev : Event) : P ev -> adds P (emit ev).
Proof. intros H h. exists [ev]. split; [reflexivity | auto]. Qed.

Lemma adds_bind {A B : Type} (P : Event -> Prop) (m : M A) (k : A -> M B) :
  adds P m -> (forall a, adds P (k a)) -> adds P (bind m k).
Proof.
  intros Hm Hk h. unfold bind. destruct (Hm h) as [tr1 [E1 F1]].
  destruct (m h) as [a h1]. simpl in E1. subst h1.
  destruct (Hk a (h ++ tr1)) as [tr2 [E2 F2]]. exists (tr1 ++ tr2).
  split; [now rewrite E2, app_assoc | now apply Forall_app].
Qed.

(** The cleanup watchers a history starts, and the retry delays it
    sleeps. *)
Fixpoint watcherStarts (tr : History) : list string :=
  match tr with
  | [] => []
  | EvGoWatcher cid :: tr' => cid :: watcherStarts tr'
  | _ :: tr' => watcherStarts tr'
  end.

Fixpoint sleeps (tr : History) : list Z :=
  match tr with
  | [] => []
  | EvSleep d :: tr' => d :: sleeps tr'
  | _ :: tr' => sleeps tr'
  end.

Lemma watcherStarts_app (h tr : History) :
  watcherStarts (h ++ tr) = watcherStarts h ++ watcherStarts tr.
Proof.
  induction h as [|ev h IH]; simpl; [reflexivity |].
  destruct ev; simpl; now rewrite ?IH.
Qed.

Lemma sleeps_app (h tr : History) :
  sleeps (h ++ tr) = sleeps h ++ sleeps tr.
Proof.
  induction h as [|ev h IH]; simpl; [reflexivity |].
  destruct ev; simpl; now rewrite ?IH.
Qed.

(** Events of the image pipeline and of the container start. *)
Definition setupEvent (ev : Event) : Prop :=
  match ev with
  | EvTagGet _ _ | EvImageInspect _ _ | EvImagePull _ _ | EvReadAll _
  | EvImageTag _ _ _ | EvContainerCreate _ _ | EvContainerStart _ _ => True
  | _ => False
  end.

(** Events of an exec session. *)
Definition execEvent (ev : Event) : Prop :=
  match ev with
  | EvExecCreate _ _ _ | EvExecAttach _ _ | EvExecOutput _ => True
  | _ => False
  end.

Lemma setupEvents_quiet (tr : History) :
  Forall setupEvent tr ->
  execCalls tr = O /\ watcherStarts tr = [] /\ sleeps tr = [].
Proof.
  induction 1 as [|ev tr P F IH]; simpl; [auto |].
  destruct ev; simpl in P; try contradiction; exact IH.
Qed.

Lemma execEvents_quiet (tr : History) :
  Forall execEvent tr -> watcherStarts tr = [] /\ sleeps tr = [].
Proof.
  induction 1 as [|ev tr P F IH]; simpl; [auto |].
  destruct ev; simpl in P; try contradiction; exact IH.
Qed.

Lemma pull_adds (state : requestState) : adds setupEvent (pull state).
Proof.
  unfold pull, checkIfImageExists, TagGet, ImageInspectWithRaw, ImagePull,
    ReadAll, ImageTagCall.
  apply adds_bind; [apply adds_ask; intros; exact I |].
  intros [tag|]; [| apply adds_ret].
  apply adds_bind.
  - apply adds_bind; [apply adds_ask; intros; exact I |].
    intros [i|e]; apply adds_ret.
  - intros [|]; [apply adds_ret |].
    apply adds_bind; [apply adds_ask; intros; exact I |].
    intros [e|]; [apply adds_ret |].
    apply adds_bind; [apply adds_ask; intros; exact I | intros _].
    apply adds_bind; [apply adds_ask; intros; exact I |].
    intros [e|]; apply adds_ret.
Qed.

Lemma exec_adds (state : requestState) : adds execEvent (exec state).
Proof.
  unfold exec, ContainerExecCreate, ContainerExecAttach, execSelect.
  apply adds_bind; [apply adds_ask; intros; exact I |].
  intros [execID|e]; [| apply adds_ret].
  apply adds_bind; [apply adds_ask; intros; exact I |].
  intros [e|]; [apply adds_ret |].
  apply adds_bind; [apply adds_ask; intros; exact I |].
  intros [[[out errout]|e]|e]; apply adds_ret.
Qed.

(** *** pull: unknown versions and the cache name *)

(** [pull] fails with "version not found" exactly when the tag storage
    has no tag for the requested version; it then has made no call to the
    Docker daemon and has left the request state as it was. *)
Theorem pull_not_found_iff_version_unknown :
  forall (state : requestState) (h : History),
    (snd (result (pull state) h) = Some "version not found" <->
     tagStorage_Get w h (version state) = None) /\
    (tagStorage_Get w h (version state) = None ->
     pull state h =
       ((state, Some "version not found"), h ++ [EvTagGet (version state) None])).
Proof.
  intros state h.
  assert (Miss : tagStorage_Get w h (version state) = None ->
                 pull state h =
                   ((state, Some "version not found"),
                    h ++ [EvTagGet (version state) None])).
  { intros E. unfold pull, TagGet, bind, ask. now rewrite E. }
  split; [| exact Miss]. split.
  - unfold result, pull, checkIfImageExists, TagGet, ImageInspectWithRaw,
      ImagePull, ReadAll, ImageTagCall.
    unfold bind, ask, ret. cbv beta.
    destruct (tagStorage_Get w h (version state)) as [tag|]; [| reflexivity].
    destruct (cli_ImageInspectWithRaw w _ _) as [i|pe]; [discriminate |].
    destruct (cli_ImagePull w _ _) as [e|]; [discriminate |].
    destruct (cli_ImageTag w _ _ _) as [e|]; discriminate.
  - intros E. unfold result. now rewrite (Miss E).
Qed.

Lemma pull_sets_name (state : requestState) (h : History) (tag : ImageTag) :
  tagStorage_Get w h (version state) = Some tag ->
  fst (result (pull state) h) =
    set_chpImageName state (PlaygroundImageName (repository r) (Digest tag)).
Proof.
  intros E.
  unfold result, pull, checkIfImageExists, TagGet, ImageInspectWithRaw,
    ImagePull, ReadAll, ImageTagCall.
  unfold bind, ask, ret. cbv beta. rewrite E.
  destruct (cli_ImageInspectWithRaw w _ _) as [i|pe]; [reflexivity |].
  destruct (cli_ImagePull w _ _) as [e|]; [reflexivity |].
  destruct (cli_ImageTag w _ _ _) as [e|]; reflexivity.
Qed.

(** The cache name [pull] derives depends on the repository and on the
    digest the version resolves to, not on the version string: two
    requests whose versions resolve to tags with the same digest leave
    [pull] with the same [chpImageName], whether the pull succeeds or
    not, and nothing else of the request state is changed. *)
Theorem pull_cache_name_depends_on_digest_only :
  forall (state1 state2 : requestState) (h1 h2 : History) (tag1 tag2 : ImageTag),
    tagStorage_Get w h1 (version state1) = Some tag1 ->
    tagStorage_Get w h2 (version state2) = Some tag2 ->
    Digest tag1 = Digest tag2 ->
    chpImageName (fst (result (pull state1) h1)) =
      chpImageName (fst (result (pull state2) h2)) /\
    chpImageName (fst (result (pull state1) h1)) =
      PlaygroundImageName (repository r) (Digest tag1) /\
    runID (fst (result (pull state1) h1)) = runID state1 /\
    version (fst (result (pull state1) h1)) = version state1 /\
    query (fst (result (pull state1) h1)) = query state1 /\
    containerID (fst (result (pull state1) h1)) = containerID state1.
Proof.
  intros state1 state2 h1 h2 tag1 tag2 E1 E2 Same.
  rewrite (pull_sets_name _ _ _ E1), (pull_sets_name _ _ _ E2), Same.
  repeat split.
Qed.

(** *** runContainer and RunQuery: when the cleanup watcher exists *)

Lemma runContainer_adds (state : requestState) : adds setupEvent (runContainer state).
Proof.
  unfold runContainer, ContainerCreate, ContainerStart.
  apply adds_bind; [apply adds_ask; intros; exact I |].
  intros [id|e]; [| apply adds_ret].
  apply adds_bind; [apply adds_ask; intros; exact I |].
  intros [e|]; apply adds_ret.
Qed.

(** A [runContainer] that returns nil has created and started one
    container, whose id it has recorded; these two calls are its only
    interactions. *)
Lemma runContainer_started (state state' : requestState) (h h' : History) :
  runContainer state h = ((state', None), h') ->
  exists spec cid,
    h' = h ++ [EvContainerCreate spec (Ok cid); EvContainerStart cid None] /\
    containerID state' = cid.
Proof.
  unfold runContainer, ContainerCreate, ContainerStart.
  unfold bind, ask, ret. cbv beta.
  match goal with |- context [cli_ContainerCreate w h ?s] => set (spec := s) end.
  destruct (cli_ContainerCreate w h spec) as [cid|e]; [| discriminate].
  destruct (cli_ContainerStart w _ cid) as [e|] eqn:S; [discriminate |].
  intros [= <- <-]. exists spec, cid. rewrite <- app_assoc. auto.
Qed.

Lemma runQueryLoop_adds (state : requestState) (n : nat) :
  forall stdout stderr,
    adds (fun ev => execEvent ev \/ exists d, ev = EvSleep d)
      (runQueryLoop n state stdout stderr).
Proof.
  induction n as [|n IH]; intros stdout stderr; simpl; [apply adds_ret |].
  apply adds_bind.
  - intros h. destruct (exec_adds state h) as [tr [E F]]. exists tr.
    split; [exact E |]. eapply Forall_impl; [| exact F]. auto.
  - intros [[so se] [e|]]; [apply adds_ret |].
    destruct (checkIfQueryExecuted so se); [apply adds_ret |].
    apply adds_bind; [apply adds_emit; right; now exists (ExecRetryDelay (cfg r)) |].
    intros _. apply IH.
Qed.

Lemma runQuery_starts_no_watcher (state : requestState) (h : History) :
  exists tr, history (runQuery state) h = h ++ tr /\ watcherStarts tr = [].
Proof.
  unfold history, runQuery, bind.
  destruct (runQueryLoop_adds state (Z.to_nat (MaxExecRetries (cfg r))) "" "" h)
    as [tr [E F]].
  destruct (runQueryLoop _ state "" "" h) as [[[so se] err] h1]. simpl in E. subst h1.
  exists tr. split.
  - destruct err; [reflexivity |]. destruct (String.eqb se ""); reflexivity.
  - clear - F. induction F as [|ev tr P F IH]; simpl; [reflexivity |].
    destruct P as [P | [d ->]]; [| exact IH].
    destruct ev; simpl in P; try contradiction; exact IH.
Qed.

(** [RunQuery] starts its cleanup watcher at most once, right after the
    successful start of the container and for that container, and opens
    no exec session before it.  When it starts no watcher it has failed in
    [pull] or in [runContainer]: it returns the empty output with an
    error and has opened no exec session at all. *)
Theorem RunQuery_watches_what_it_started :
  forall (id q ver : string) (h : History),
  exists tr,
    history (RunQuery id q ver) h = h ++ tr /\
    ((watcherStarts tr = [] /\ execCalls tr = O /\
      exists e, result (RunQuery id q ver) h = ("", Some e)) \/
     (exists cid pre post,
        tr = pre ++ [EvContainerStart cid None; EvGoWatcher cid] ++ post /\
        execCalls pre = O /\ watcherStarts pre = [] /\ watcherStarts post = [])).
Proof.
  intros id q ver h.
  pose proof (eq_refl (RunQuery id q ver h)) as RQ.
  unfold RunQuery in RQ at 2. unfold bind, emit, errAtLine299 in RQ.
  match type of RQ with context [pull ?s h] =>
    destruct (pull_adds s h) as [tr1 [E1 F1]];
    destruct (pull s h) as [[st1 err1] h1] end.
  simpl in E1. subst h1. destruct (setupEvents_quiet _ F1) as [X1 [W1 _]].
  destruct err1 as [e|].
  { exists tr1. unfold history, result. rewrite RQ. simpl.
    split; [reflexivity |]. left. repeat split; auto.
    now exists (Wrap e "pull failed"). }
  destruct (runContainer_adds st1 (h ++ tr1)) as [tr2 [E2 F2]].
  destruct (runContainer st1 (h ++ tr1)) as [[st2 err2] h2] eqn:RC. simpl in E2.
  destruct (setupEvents_quiet _ F2) as [X2 [W2 _]].
  destruct err2 as [e|].
  { exists (tr1 ++ tr2). unfold history, result. rewrite RQ. subst h2. simpl.
    rewrite app_assoc. split; [reflexivity |]. left.
    rewrite watcherStarts_app, execCalls_app, W1, W2, X1, X2.
    repeat split; auto. now exists (Wrap e "failed to run container"). }
  destruct (runContainer_started _ _ _ _ RC) as [spec [cid [H2 Cid]]].
  destruct (runQuery_starts_no_watcher st2 (h2 ++ [EvGoWatcher (containerID st2)]))
    as [tr3 [E3 W3]].
  unfold history in E3.
  destruct (runQuery st2 (h2 ++ [EvGoWatcher (containerID st2)])) as [[out err3] h3].
  simpl in E3. subst h3. rewrite Cid, H2 in RQ.
  exists ((tr1 ++ [EvContainerCreate spec (Ok cid)]) ++
          [EvContainerStart cid None; EvGoWatcher cid] ++ tr3).
  split.
  - unfold history. rewrite RQ.
    destruct (watcher_assigned _) as [[a|]|]; destruct err3; simpl;
      rewrite <- !app_assoc; reflexivity.
  - right. exists cid, (tr1 ++ [EvContainerCreate spec (Ok cid)]), tr3.
    rewrite execCalls_app, watcherStarts_app, X1, W1. auto.
Qed.

(** An error of [RunQuery] comes with the empty output and names the
    stage that failed: the pull, the container start or the query. *)
Theorem RunQuery_error_names_the_stage :
  forall (id q ver : string) (h : History) (out : string) (e : error),
    result (RunQuery id q ver) h = (out, Some e) ->
    out = "" /\
    ((exists e', e = Wrap e' "pull failed") \/
     (exists e', e = Wrap e' "failed to run container") \/
     (exists e', e = Wrap e' "failed to run query")).
Proof.
  intros id q ver h out e. unfold result, RunQuery.
  unfold bind, emit, errAtLine299.
  match goal with |- context [pull ?s h] =>
    destruct (pull s h) as [[st1 [e1|]] h1] end; simpl.
  { intros [= <- <-]. split; [reflexivity |]. left. now exists e1. }
  destruct (runContainer st1 h1) as [[st2 [e2|]] h2]; simpl.
  { intros [= <- <-]. split; [reflexivity |]. right. left. now exists e2. }
  destruct (runQuery st2 _) as [[out3 err3] h3].
  destruct (watcher_assigned h3) as [[a|]|]; [| | destruct err3 as [e3|]];
    simpl; try discriminate;
    intros [= <- <-]; (split; [reflexivity |]); right; right; eauto.
Qed.

(** When the container is created but its start fails, [runContainer]
    records no container id and [RunQuery] returns the wrapped error at
    once: no cleanup watcher is started and nothing removes the created
    container on behalf of the request. *)
Theorem start_failure_leaves_created_container :
  forall (id q ver : string) (h : History) (st1 : requestState) (h1 : History)
         (cid : string) (e : error),
    pull {| runID := id; version := ver; query := q;
            chpImageName := ""; containerID := "" |} h = ((st1, None), h1) ->
    let spec :=
      {| Spec_Image := chpImageName st1;
         Spec_Labels := CreateContainerLabels (runID st1) (version st1);
         Spec_Mounts := customConfigMounts |} in
    cli_ContainerCreate w h1 spec = Ok cid ->
    cli_ContainerStart w (h1 ++ [EvContainerCreate spec (Ok cid)]) cid = Some e ->
    runContainer st1 h1 =
      ((st1, Some (Wrap e "container cannot be started")),
       h1 ++ [EvContainerCreate spec (Ok cid); EvContainerStart cid (Some e)]) /\
    RunQuery id q ver h =
      (("", Some (Wrap (Wrap e "container cannot be started")
                    "failed to run container")),
       h1 ++ [EvContainerCreate spec (Ok cid); EvContainerStart cid (Some e)]).
Proof.
  intros id q ver h st1 h1 cid e P spec Created Failed.
  assert (RC : runContainer st1 h1 =
               ((st1, Some (Wrap e "container cannot be started")),
                h1 ++ [EvContainerCreate spec (Ok cid); EvContainerStart cid (Some e)])).
  { unfold runContainer, ContainerCreate, ContainerStart.
    unfold bind, ask, ret. cbv beta. fold spec. rewrite Created, Failed.
    now rewrite <- app_assoc. }
  split; [exact RC |].
  unfold RunQuery, bind at 1. rewrite P. cbv iota beta.
  unfold bind at 1. rewrite RC. reflexivity.
Qed.

(** *** exec: where its results come from *)

(** [exec] hands out output only when the copy of the attached stream
    completed: whenever it returns an error, and whenever its wait was
    ended by the caller's context, stdout and stderr are empty.  The
    failures of the Docker calls and of the copy come wrapped with the
    name of the step.  After a wait ended by the context the error
    returned is what the result variable [err] holds when [exec] returns:
    the error of the context, unless the copy goroutine has assigned the
    outcome of its copy in the meantime; it is then that outcome, and a
    nil one makes [exec] return no error, with the empty output. *)
Theorem exec_output_comes_from_a_completed_copy :
  forall (state : requestState) (h : History),
    let '(out, errout, err) := result (exec state) h in
    (err = None /\
     exists pre,
       history (exec state) h =
         pre ++ [EvExecOutput (OutputDone (Ok (out, errout)))]) \/
    (out = "" /\ errout = "" /\
     ((exists e', err = Some (Wrap e' "exec create failed")) \/
      (exists e', err = Some (Wrap e' "exec attach failed")) \/
      (exists e', err = Some (Wrap e' "failed to get output")) \/
      (exists pre e,
         history (exec state) h = pre ++ [EvExecOutput (CtxDone e None)] /\
         err = Some e) \/
      (exists pre e assigned,
         history (exec state) h =
           pre ++ [EvExecOutput (CtxDone e (Some assigned))] /\
         err = assigned))).
Proof.
  intros state h.
  unfold result, history, exec, ContainerExecCreate, ContainerExecAttach, execSelect.
  unfold bind, ask, ret. cbv beta.
  destruct (cli_ContainerExecCreate w h _ _) as [execID|e]; simpl.
  - match goal with |- context [cli_ContainerExecAttach w ?h' execID] =>
      set (h1 := h'); destruct (cli_ContainerExecAttach w h1 execID) as [e|] end; simpl.
    + right. repeat split. right. left. now exists e.
    + match goal with |- context [exec_select w ?h'] =>
        set (h2 := h');
        destruct (exec_select w h2) as [[[out errout]|e]|e [assigned|]] end; simpl.
      * left. split; [reflexivity | now exists h2].
      * right. repeat split. right. right. left. now exists e.
      * right. repeat split. do 4 right. now exists h2, e, assigned.
      * right. repeat split. do 3 right. left. now exists h2, e.
  - right. repeat split. left. now exists e.
Qed.

(** *** runQuery: how many attempts, and when it sleeps *)

(** The answers of a history that refuse the connection: the copies that
    completed with the sentinel on stderr. *)
Fixpoint refusals (tr : History) : nat :=
  match tr with
  | [] => O
  | EvExecOutput (OutputDone (Ok (_, stderr))) :: tr' =>
      ((if Contains stderr connectionRefused then 1 else 0) + refusals tr')%nat
  | _ :: tr' => refusals tr'
  end.

Lemma refusals_app (h tr : History) :
  refusals (h ++ tr) = (refusals h + refusals tr)%nat.
Proof.
  induction h as [|ev h IH]; simpl; [reflexivity |].
  destruct ev as [| | | | | | | | | | | | | | | | |[[[so se]|e]|e late] |];
    simpl; rewrite IH; try reflexivity.
  lia.
Qed.

(** One exec session: its events, and whether its answer refuses the
    connection, which is the case exactly when [exec] returns without
    error an stderr that holds the sentinel. *)
Lemma exec_attempt (state : requestState) (h : History) :
  exists tr,
    snd (exec state h) = h ++ tr /\
    Forall execEvent tr /\ execCalls tr = 1%nat /\
    refusals tr =
      match fst (exec state h) with
      | (_, stderr, None) => if Contains stderr connectionRefused then 1%nat else O
      | (_, _, Some _) => O
      end.
Proof.
  destruct (exec_adds state h) as [tr [E F]]. exists tr.
  split; [exact E |]. split; [exact F |]. split.
  - pose proof (exec_calls_once state h) as X. unfold history in X.
    rewrite E, execCalls_app in X. lia.
  - revert E.
    unfold exec, ContainerExecCreate, ContainerExecAttach, execSelect.
    unfold bind, ask, ret. cbv beta.
    destruct (cli_ContainerExecCreate w h _ _) as [execID|e]; simpl.
    + match goal with |- context [cli_ContainerExecAttach w ?h' execID] =>
        set (h1 := h'); destruct (cli_ContainerExecAttach w h1 execID) as [e|] end;
        simpl.
      * unfold h1. rewrite <- !app_assoc. intros E.
        apply app_inv_head in E. now subst tr.
      * match goal with |- context [exec_select w ?h'] =>
          set (h2 := h');
          destruct (exec_select w h2) as [[[out errout]|e]|e [assigned|]] eqn:Sel end;
          simpl; unfold h2, h1; rewrite <- !app_assoc; intros E;
          apply app_inv_head in E; subst tr; simpl;
          try reflexivity.
        -- destruct (Contains errout connectionRefused); reflexivity.
        -- destruct assigned; reflexivity.
    + intros E. apply app_inv_head in E. now subst tr.
Qed.

(** [RetryTrace delay n tr]: [tr] is what a loop with [n] attempts left
    adds to the history.  Each attempt is one exec session.  The loop
    ends when no attempt is left, or with an attempt whose answer does
    not refuse the connection (the query was executed, or [exec]
    failed), and then without sleeping; after an attempt whose answer
    refuses the connection it sleeps the delay, once, and goes on with
    one attempt less. *)
Inductive RetryTrace (delay : Z) : nat -> History -> Prop :=
| retry_exhausted : RetryTrace delay 0 []
| retry_stop n tr :
    Forall execEvent tr -> execCalls tr = 1%nat -> refusals tr = O ->
    RetryTrace delay (S n) tr
| retry_refused n tr rest :
    Forall execEvent tr -> execCalls tr = 1%nat -> refusals tr = 1%nat ->
    RetryTrace delay n rest ->
    RetryTrace delay (S n) (tr ++ EvSleep delay :: rest).

Lemma runQueryLoop_retries (state : requestState) (n : nat) :
  forall stdout stderr h,
  exists tr,
    snd (runQueryLoop n state stdout stderr h) = h ++ tr /\
    RetryTrace (ExecRetryDelay (cfg r)) n tr.
Proof.
  induction n as [|n IH]; intros stdout stderr h; simpl.
  - exists []. unfold ret. simpl. rewrite app_nil_r. split; [reflexivity | constructor].
  - unfold bind at 1. destruct (exec_attempt state h) as [tr [E [F [X R]]]].
    destruct (exec state h) as [[[so se] err] h1]. simpl in E, R. subst h1.
    destruct err as [e|].
    { exists tr. split; [reflexivity | now apply retry_stop]. }
    unfold checkIfQueryExecuted.
    destruct (Contains se connectionRefused).
    + change (negb true) with false. unfold bind, Sleep, emit. cbv beta iota.
      destruct (IH so se ((h ++ tr) ++ [EvSleep (ExecRetryDelay (cfg r))]))
        as [rest [E' T]].
      exists (tr ++ EvSleep (ExecRetryDelay (cfg r)) :: rest).
      rewrite E', <- !app_assoc. split; [reflexivity | now apply retry_refused].
    + change (negb false) with true. cbv iota.
      exists tr. split; [reflexivity | now apply retry_stop].
Qed.

Lemma RetryTrace_counts (delay : Z) (n : nat) (tr : History) :
  RetryTrace delay n tr ->
  (execCalls tr <= n)%nat /\
  sleeps tr = repeat delay (refusals tr) /\
  (refusals tr <= execCalls tr)%nat /\
  (refusals tr = n \/ S (refusals tr) = execCalls tr \/ n = O).
Proof.
  induction 1 as [|n tr F X R|n tr rest F X R T IH].
  - simpl. repeat split; auto.
  - destruct (execEvents_quiet _ F) as [_ Sl]. rewrite Sl, R, X.
    simpl. repeat split; auto; lia.
  - destruct (execEvents_quiet _ F) as [_ Sl].
    destruct IH as [B [S' [Le Sh]]].
    rewrite execCalls_app, sleeps_app, refusals_app. simpl.
    rewrite Sl, R, X, S'. simpl. repeat split; auto; lia.
Qed.

(** [runQuery] opens at most [MaxExecRetries] exec sessions, one after
    the other, whatever the daemon answers.  It sleeps the configured
    delay once after every attempt whose answer refuses the connection,
    the last of [MaxExecRetries] refused attempts included, and at no
    other time; an attempt whose answer does not refuse the connection
    is its last interaction. *)
Theorem runQuery_attempts_are_bounded :
  forall (state : requestState) (h : History),
  exists tr,
    history (runQuery state) h = h ++ tr /\
    RetryTrace (ExecRetryDelay (cfg r)) (Z.to_nat (MaxExecRetries (cfg r))) tr /\
    (execCalls tr <= Z.to_nat (MaxExecRetries (cfg r)))%nat /\
    sleeps tr = repeat (ExecRetryDelay (cfg r)) (refusals tr).
Proof.
  intros state h. unfold history, runQuery, bind.
  destruct (runQueryLoop_retries state (Z.to_nat (MaxExecRetries (cfg r))) "" "" h)
    as [tr [E T]].
  destruct (runQueryLoop _ state "" "" h) as [[[so se] err] h1]. simpl in E. subst h1.
  exists tr. destruct (RetryTrace_counts _ _ _ T) as [B [Sl _]].
  repeat split; auto.
  destruct err; [reflexivity |]. destruct (String.eqb se ""); reflexivity.
Qed.

(** [RefusedUpTo state n h h0]: the first [n] exec attempts from history
    [h] on are refused, and leave the history [h0]. *)
Definition RefusedUpTo (state : requestState) (n : nat) (h h0 : History) : Prop :=
  match n with
  | O => h0 = h
  | S _ => exists stdout stderr, Refused state n h stdout stderr h0
  end.

Lemma runQueryLoop_skips_refused (state : requestState) n h stdout stderr h0 :
  Refused state n h stdout stderr h0 ->
  forall m out0 err0,
    runQueryLoop (n + m) state out0 err0 h = runQueryLoop m state stdout stderr h0.
Proof.
  induction 1 as [h so se h1 E C | n h so0 se0 h1 so se h' E C R IH];
    intros m out0 err0.
  - simpl. unfold bind at 1. rewrite E. unfold checkIfQueryExecuted. rewrite C.
    reflexivity.
  - change (S (S n) + m)%nat with (S (S n + m)). simpl runQueryLoop at 1.
    unfold bind at 1. rewrite E. unfold checkIfQueryExecuted. rewrite C.
    simpl negb. cbv iota. unfold bind at 1. unfold Sleep, emit.
    exact (IH m so0 se0).
Qed.

Lemma runQueryLoop_after_refusals (state : requestState) n m h h0 :
  RefusedUpTo state n h h0 ->
  exists out0 err0,
    runQueryLoop (n + m) state "" "" h = runQueryLoop m state out0 err0 h0 /\
    execCalls h0 = (execCalls h + n)%nat.
Proof.
  destruct n as [|n]; simpl.
  - intros ->. exists "", "". split; [reflexivity | lia].
  - intros [so [se R]]. exists so, se. split.
    + exact (runQueryLoop_skips_refused state (S n) h so se h0 R m "" "").
    + exact (proj2 (runQueryLoop_refused state (S n) h so se h0 "" "" R)).
Qed.

(** If the first [n] attempts are refused, [n] being below
    [MaxExecRetries], and the next one returns without the sentinel on
    stderr, [runQuery] stops there: it has opened [n + 1] exec sessions
    and returns, with a nil error, the output of that attempt, stdout
    alone when stderr is empty and stdout, a line feed and stderr
    otherwise. *)
Theorem runQuery_stops_at_first_ready_attempt :
  forall (state : requestState) (n : nat) (h h0 h1 : History) (stdout stderr : string),
    (n < Z.to_nat (MaxExecRetries (cfg r)))%nat ->
    RefusedUpTo state n h h0 ->
    exec state h0 = ((stdout, stderr, None), h1) ->
    Contains stderr connectionRefused = false ->
    runQuery state h =
      ((if String.eqb stderr "" then stdout
        else (stdout ++ LF ++ stderr)%string, None), h1) /\
    execCalls h1 = (execCalls h + n + 1)%nat.
Proof.
  intros state n h h0 h1 stdout stderr Below R E Ready.
  destruct (runQueryLoop_after_refusals state n
              (Z.to_nat (MaxExecRetries (cfg r)) - n) h h0 R)
    as [out0 [err0 [L X]]].
  replace (n + (Z.to_nat (MaxExecRetries (cfg r)) - n))%nat
    with (Z.to_nat (MaxExecRetries (cfg r))) in L by lia.
  split.
  - unfold runQuery, bind. rewrite L.
    destruct (Z.to_nat (MaxExecRetries (cfg r)) - n)%nat as [|m] eqn:M; [lia |].
    simpl. unfold bind at 1. rewrite E. unfold checkIfQueryExecuted. rewrite Ready.
    simpl. destruct (String.eqb stderr ""); reflexivity.
  - pose proof (exec_calls_once state h0) as Y. unfold history in Y.
    rewrite E in Y. simpl in Y. lia.
Qed.

(** If the first [n] attempts are refused, [n] being below
    [MaxExecRetries], and the next exec fails, [runQuery] gives up at
    once: it returns the empty output with the error of [exec] as it is,
    without sleeping or trying again. *)
Theorem runQuery_gives_up_on_exec_error :
  forall (state : requestState) (n : nat) (h h0 h1 : History)
         (stdout stderr : string) (e : error),
    (n < Z.to_nat (MaxExecRetries (cfg r)))%nat ->
    RefusedUpTo state n h h0 ->
    exec state h0 = ((stdout, stderr, Some e), h1) ->
    runQuery state h = (("", Some e), h1).
Proof.
  intros state n h h0 h1 stdout stderr e Below R E.
  destruct (runQueryLoop_after_refusals state n
              (Z.to_nat (MaxExecRetries (cfg r)) - n) h h0 R)
    as [out0 [err0 [L X]]].
  replace (n + (Z.to_nat (MaxExecRetries (cfg r)) - n))%nat
    with (Z.to_nat (MaxExecRetries (cfg r))) in L by lia.
  unfold runQuery, bind. rewrite L.
  destruct (Z.to_nat (MaxExecRetries (cfg r)) - n)%nat as [|m] eqn:M; [lia |].
  simpl. unfold bind at 1. rewrite E. reflexivity.
Qed.

(** *** runContainer: the mount of the custom configuration *)

(** The byte [c] occurs in [s]. *)
Fixpoint hasByte (c : ascii) (s : string) : bool :=
  match s with
  | EmptyString => false
  | String d s' => Ascii.eqb d c || hasByte c s'
  end.

(** Neither a dot nor a slash occurs in [s]. *)
Definition plainName (s : string) : Prop :=
  hasByte "."%char s = false /\ hasByte "/"%char s = false.

Lemma path_Ext_scan_spec (p : string) :
  match path_Ext_scan p with
  | (Some e, seen) =>
      seen = false /\
      exists pre rest,
        p = (pre ++ e)%string /\ e = String "."%char rest /\ plainName rest
  | (None, false) => plainName p
  | (None, true) =>
      exists pre rest, p = (pre ++ String "/"%char rest)%string /\ plainName rest
  end.
Proof.
  induction p as [|c p IH]; simpl.
  - split; reflexivity.
  - destruct (path_Ext_scan p) as [[e|] seen].
    + destruct IH as [_ [pre [rest [-> [-> P]]]]]. split; [reflexivity |].
      now exists (String c pre), rest.
    + destruct seen.
      * destruct IH as [pre [rest [-> P]]]. now exists (String c pre), rest.
      * destruct (Ascii.eqb c "."%char) eqn:Dot.
        -- apply Ascii.eqb_eq in Dot. subst c. split; [reflexivity |].
           now exists EmptyString, p.
        -- destruct (Ascii.eqb c "/"%char) eqn:Slash.
           ++ apply Ascii.eqb_eq in Slash. subst c. now exists EmptyString, p.
           ++ destruct IH as [D S]. unfold plainName. simpl.
              now rewrite Dot, Slash, D, S.
Qed.

(** Without a custom configuration path nothing is mounted.  With one,
    exactly that file is bind-mounted, read-only, at
    /etc/clickhouse-server/config.d/custom-config followed by the
    extension of the path: the part of the path from the last dot of its
    last slash-separated element on, or nothing when that element has no
    dot. *)
Theorem custom_config_mount_keeps_the_extension :
  match CustomConfigPath (cfg r) with
  | None => customConfigMounts = []
  | Some p =>
      exists ext,
        customConfigMounts =
          [ {| Mount_Source := p;
               Mount_Target :=
                 ("/etc/clickhouse-server/config.d/custom-config" ++ ext)%string;
               Mount_ReadOnly := true |} ] /\
        ((exists pre rest,
            p = (pre ++ ext)%string /\ ext = String "."%char rest /\
            plainName rest) \/
         (ext = "" /\
          (plainName p \/
           exists pre rest,
             p = (pre ++ String "/"%char rest)%string /\ plainName rest)))
  end.
Proof.
  unfold customConfigMounts. destruct (CustomConfigPath (cfg r)) as [p|]; [| reflexivity].
  exists (path_Ext p). split; [reflexivity |].
  unfold path_Ext. pose proof (path_Ext_scan_spec p) as S.
  destruct (path_Ext_scan p) as [[e|] seen]; simpl.
  - left. destruct S as [_ S]. exact S.
  - right. split; [reflexivity |]. destruct seen; auto.
Qed.

End LocalDocker.

(** ** The cleanup watcher (RunQuery, lines 283-303)

    After [runContainer] has succeeded, [RunQuery] makes the channel
    [done], defers [close(done)], starts the watcher goroutine and calls
    [runQuery].  Two goroutines and the caller's context then act on
    shared state: the channel, the context, and the variable [err] that
    the watcher's closure captures and assigns.  The model interleaves
    their atomic steps under an arbitrary schedule. *)

Module Watcher.

(** Where the goroutine of the caller stands. *)
Inductive CallerPC : Type :=
| InRunQuery      (* line 298: runQuery has not returned yet *)
| AtCheck         (* line 299: output and err are assigned, err is not yet tested *)
| AtDefer         (* the results are evaluated, the deferred close(done) is pending *)
| CallerDone.     (* RunQuery has returned *)

(** Where the watcher goroutine stands. *)
Inductive WatcherPC : Type :=
| AtSelect                          (* line 287: waiting for ctx.Done() or done *)
| AtRemove                          (* line 292: about to call forceRemoveContainer *)
| AtAssign (res : option error)     (* the call has returned, err is not yet assigned *)
| Exited.

Record State : Type := {
  caller : CallerPC;
  watcher : WatcherPC;
  ctxDone : bool;                   (* the caller's context has ended *)
  doneClosed : bool;                (* close(done) has run *)
  err : option error;               (* the shared variable err *)
  output : string;
  returned : option (string * option error);   (* the results of RunQuery *)
  removeCalls : list string         (* arguments of the forceRemoveContainer calls made *)
}.

(** What the environment decides in one request: the container the
    request started, what [runQuery] returns, and what the force-remove
    returns. *)
Record Request : Type := {
  cid : string;
  queryResult : string * option error;
  removeResult : option error
}.

(** After line 278 succeeded [err] is nil; nothing has run yet. *)
Definition init : State :=
  {| caller := InRunQuery; watcher := AtSelect; ctxDone := false;
     doneClosed := false; err := None; output := ""; returned := None;
     removeCalls := [] |}.

(** Who moves next: one of the goroutines, or the owner of the caller's
    context, who cancels it. *)
Inductive Turn : Type :=
| CallerTurn
| WatcherTurn
| CancelTurn.

Definition stepCaller (q : Request) (s : State) : State :=
  match caller s with
  | InRunQuery =>
      {| caller := AtCheck; watcher := watcher s; ctxDone := ctxDone s;
         doneClosed := doneClosed s; err := snd (queryResult q);
         output := fst (queryResult q); returned := returned s;
         removeCalls := removeCalls s |}
  | AtCheck =>
      {| caller := AtDefer; watcher := watcher s; ctxDone := ctxDone s;
         doneClosed := doneClosed s; err := err s; output := output s;
         returned :=
           Some match err s with
                | Some e => ("", Some (Wrap e "failed to run query"))
                | None => (output s, None)
                end;
         removeCalls := removeCalls s |}
  | AtDefer =>
      {| caller := CallerDone; watcher := watcher s; ctxDone := ctxDone s;
         doneClosed := true; err := err s; output := output s;
         returned := returned s; removeCalls := removeCalls s |}
  | CallerDone => s
  end.

(** A watcher that is scheduled while neither channel is ready stays in
    its [select]. *)
Definition stepWatcher (q : Request) (s : State) : State :=
  match watcher s with
  | AtSelect =>
      if ctxDone s || doneClosed s then
        {| caller := caller s; watcher := AtRemove; ctxDone := ctxDone s;
           doneClosed := doneClosed s; err := err s; output := output s;
           returned := returned s; removeCalls := removeCalls s |}
      else s
  | AtRemove =>
      {| caller := caller s; watcher := AtAssign (removeResult q);
         ctxDone := ctxDone s; doneClosed := doneClosed s; err := err s;
         output := output s; returned := returned s;
         removeCalls := removeCalls s ++ [cid q] |}
  | AtAssign res =>
      {| caller := caller s; watcher := Exited; ctxDone := ctxDone s;
         doneClosed := doneClosed s; err := res; output := output s;
         returned := returned s; removeCalls := removeCalls s |}
  | Exited => s
  end.

Definition cancel (s : State) : State :=
  {| caller := caller s; watcher := watcher s; ctxDone := true;
     doneClosed := doneClosed s; err := err s; output := output s;
     returned := returned s; removeCalls := removeCalls s |}.

Definition step (q : Request) (s : State) (t : Turn) : State :=
  match t with
  | CallerTurn => stepCaller q s
  | WatcherTurn => stepWatcher q s
  | CancelTurn => cancel s
  end.

(** The state a schedule leads to. *)
Definition run (q : Request) (schedule : list Turn) (s : State) : State :=
  fold_left (step q) schedule s.

(** How often the watcher is scheduled. *)
Fixpoint watcherTurns (schedule : list Turn) : nat :=
  match schedule with
  | [] => O
  | WatcherTurn :: rest => S (watcherTurns rest)
  | _ :: rest => watcherTurns rest
  end.

(** The watcher may pass its [select]. *)
Definition released (s : State) : bool := ctxDone s || doneClosed s.

(** The calls made so far match the progress of the watcher, and a
    caller that has returned has closed [done]. *)
Definition consistent (q : Request) (s : State) : Prop :=
  match watcher s with
  | AtSelect | AtRemove => removeCalls s = []
  | AtAssign _ | Exited => removeCalls s = [cid q]
  end /\
  (watcher s <> AtSelect -> released s = true) /\
  (caller s = CallerDone -> doneClosed s = true).

(** The watcher turns still needed before the force-remove call is made. *)
Definition turnsNeeded (s : State) : nat :=
  match watcher s with
  | AtSelect => 2
  | AtRemove => 1
  | AtAssign _ | Exited => 0
  end.

Lemma consistent_init (q : Request) : consistent q init.
Proof. unfold consistent, init; simpl. repeat split; congruence. Qed.

Lemma consistent_step (q : Request) (s : State) (t : Turn) :
  consistent q s -> consistent q (step q s t).
Proof.
  unfold consistent, released. intros [C [R D]].
  destruct t; simpl; unfold stepCaller, stepWatcher.
  - destruct (caller s) eqn:PC; simpl; repeat split; auto; try congruence.
    all: intros W; specialize (R W); apply orb_true_iff; now right.
  - destruct (watcher s) eqn:W; simpl.
    + destruct (ctxDone s || doneClosed s) eqn:Rel; simpl; rewrite ?W;
        repeat split; auto; congruence.
    + rewrite C. repeat split; auto; intros _; apply R; congruence.
    + repeat split; auto; intros _; apply R; congruence.
    + rewrite W. repeat split; auto.
  - repeat split; auto.
Qed.

Lemma consistent_run (q : Request) (schedule : list Turn) :
  forall s, consistent q s -> consistent q (run q schedule s).
Proof.
  induction schedule as [|t rest IH]; intros s C; simpl; [exact C |].
  apply IH. now apply consistent_step.
Qed.

Lemma released_step (q : Request) (s : State) (t : Turn) :
  released s = true -> released (step q s t) = true.
Proof.
  unfold released. intros R. destruct t; simpl.
  - unfold stepCaller. destruct (caller s); simpl; auto.
    apply orb_true_iff. now right.
  - unfold stepWatcher. destruct (watcher s); simpl; auto. now rewrite R.
  - reflexivity.
Qed.

Lemma run_app (q : Request) (s1 s2 : list Turn) (s : State) :
  run q (s1 ++ s2) s = run q s2 (run q s1 s).
Proof. unfold run. apply fold_left_app. Qed.

(** Once released, every watcher turn brings the call nearer, and no
    other turn takes it further away. *)
Lemma turnsNeeded_step (q : Request) (s : State) (t : Turn) :
  released s = true ->
  match t with
  | WatcherTurn => turnsNeeded (step q s t) = Nat.pred (turnsNeeded s)
  | _ => turnsNeeded (step q s t) = turnsNeeded s
  end.
Proof.
  unfold released, turnsNeeded. intros R. destruct t; simpl.
  - unfold stepCaller. destruct (caller s); reflexivity.
  - unfold stepWatcher. destruct (watcher s) eqn:W; simpl; rewrite ?W;
      try reflexivity.
    now rewrite R.
  - reflexivity.
Qed.

Lemma released_run_calls (q : Request) (schedule : list Turn) :
  forall s,
    consistent q s ->
    released s = true ->
    (turnsNeeded s <= watcherTurns schedule)%nat ->
    removeCalls (run q schedule s) = [cid q].
Proof.
  induction schedule as [|t rest IH]; intros s C R N; simpl in *.
  - destruct C as [C _]. unfold turnsNeeded in N.
    destruct (watcher s); try lia; exact C.
  - apply IH.
    + now apply consistent_step.
    + now apply released_step.
    + pose proof (turnsNeeded_step q s t R) as T.
      destruct t; rewrite T; lia.
Qed.

(** [close(done)] runs only when the caller is done, and a caller that
    is past line 299 has its results. *)
Definition ordered (s : State) : Prop :=
  (doneClosed s = true -> caller s = CallerDone) /\
  (caller s = AtDefer \/ caller s = CallerDone -> returned s <> None).

Lemma ordered_step (q : Request) (s : State) (t : Turn) :
  ordered s -> ordered (step q s t).
Proof.
  unfold ordered. intros [D R]. destruct t; simpl.
  - unfold stepCaller. destruct (caller s) eqn:PC; simpl; rewrite ?PC.
    + split; [intros X; specialize (D X); congruence | intros [X | X]; congruence].
    + split; [intros X; specialize (D X); congruence | intros _; discriminate].
    + split; [reflexivity | intros _; apply R; now left].
    + split; [exact D | exact R].
  - unfold stepWatcher. destruct (watcher s); simpl; auto.
    destruct (ctxDone s || doneClosed s); simpl; auto.
  - split; [exact D | exact R].
Qed.

Lemma ordered_run (q : Request) (schedule : list Turn) :
  forall s, ordered s -> ordered (run q schedule s).
Proof.
  induction schedule as [|t rest IH]; intros s O; simpl; [exact O |].
  apply IH. now apply ordered_step.
Qed.

(** How often the caller is scheduled, and how many of its three steps
    (line 298 returns, line 299 evaluates the results, the deferred
    [close(done)] runs) it has taken. *)
Fixpoint callerTurns (schedule : list Turn) : nat :=
  match schedule with
  | [] => O
  | CallerTurn :: rest => S (callerTurns rest)
  | _ :: rest => callerTurns rest
  end.

Definition callerSteps (s : State) : nat :=
  match caller s with
  | InRunQuery => 0
  | AtCheck => 1
  | AtDefer => 2
  | CallerDone => 3
  end.

Lemma callerSteps_step (q : Request) (s : State) (t : Turn) :
  callerSteps (step q s t) =
  match t with
  | CallerTurn => Nat.min 3 (S (callerSteps s))
  | _ => callerSteps s
  end.
Proof.
  unfold callerSteps. destruct t; simpl.
  - unfold stepCaller. destruct (caller s) eqn:PC; simpl; rewrite ?PC; reflexivity.
  - unfold stepWatcher. destruct (watcher s); simpl; auto.
    destruct (ctxDone s || doneClosed s); reflexivity.
  - reflexivity.
Qed.

Lemma callerSteps_run (q : Request) (schedule : list Turn) :
  forall s,
    callerSteps (run q schedule s) =
    Nat.min 3 (callerSteps s + callerTurns schedule).
Proof.
  induction schedule as [|t rest IH]; intros s.
  - change (run q [] s) with s. unfold callerSteps.
    destruct (caller s); reflexivity.
  - change (run q (t :: rest) s) with (run q rest (step q s t)).
    rewrite IH, callerSteps_step. destruct t; cbn [callerTurns]; lia.
Qed.

(** A caller scheduled three times has returned, with results. *)
Lemma caller_returns (q : Request) (schedule : list Turn) :
  (3 <= callerTurns schedule)%nat ->
  caller (run q schedule init) = CallerDone /\
  exists res, returned (run q schedule init) = Some res.
Proof.
  intros Three.
  pose proof (callerSteps_run q schedule init) as Steps.
  assert (Done : caller (run q schedule init) = CallerDone).
  { unfold callerSteps at 1 in Steps. change (callerSteps init) with O in Steps.
    destruct (caller (run q schedule init)); try reflexivity; lia. }
  split; [exact Done |].
  assert (O : ordered (run q schedule init)).
  { apply ordered_run. unfold ordered, init. simpl.
    split; [discriminate | intros [X | X]; discriminate]. }
  destruct O as [_ Res].
  destruct (returned (run q schedule init)) as [res|] eqn:E.
  - now exists res.
  - exfalso. apply Res; [now right | reflexivity].
Qed.

(** A cancellation is not undone. *)
Lemma ctxDone_step (q : Request) (s : State) (t : Turn) :
  ctxDone s = true -> ctxDone (step q s t) = true.
Proof.
  intros X. destruct t; simpl; [| | reflexivity].
  - unfold stepCaller. destruct (caller s); simpl; exact X.
  - unfold stepWatcher. destruct (watcher s); simpl; try exact X.
    destruct (ctxDone s || doneClosed s); simpl; exact X.
Qed.

Lemma ctxDone_run (q : Request) (schedule : list Turn) :
  forall s, ctxDone s = true -> ctxDone (run q schedule s) = true.
Proof.
  induction schedule as [|t rest IH]; intros s X; simpl; [exact X |].
  apply IH. now apply ctxDone_step.
Qed.

Lemma canceled_run (q : Request) (schedule : list Turn) :
  forall s, In CancelTurn schedule -> ctxDone (run q schedule s) = true.
Proof.
  induction schedule as [|t rest IH]; intros s I; simpl; [destruct I |].
  destruct I as [-> | I]; [| now apply IH].
  now apply ctxDone_run.
Qed.

(** C2.  From the moment the watcher is started, under every
    interleaving of the caller, the watcher and a cancellation of the
    caller's context: the request makes at most one force-remove call,
    and it is for its own container.  A caller that has taken its three
    steps has returned from [RunQuery], with a result or with an error,
    whatever [runQuery] returned.  Once it has, or once the caller's
    context has been canceled (be it before [runQuery] completes), the
    watcher is released, and as soon as it has been scheduled twice from
    then on exactly one force-remove call for that container has been
    made; no later step adds another. *)
Theorem C2_exactly_one_force_remove_per_request :
  forall q : Request,
    (forall schedule,
       removeCalls (run q schedule init) = [] \/
       removeCalls (run q schedule init) = [cid q]) /\
    (forall before,
       (3 <= callerTurns before)%nat ->
       caller (run q before init) = CallerDone /\
       doneClosed (run q before init) = true /\
       exists res, returned (run q before init) = Some res) /\
    (forall before after,
       (3 <= callerTurns before)%nat \/ In CancelTurn before ->
       (2 <= watcherTurns after)%nat ->
       removeCalls (run q (before ++ after) init) = [cid q]).
Proof.
  intros q. split; [| split].
  - intros schedule.
    destruct (consistent_run q schedule init (consistent_init q)) as [C _].
    destruct (watcher (run q schedule init)); auto.
  - intros before Three.
    destruct (caller_returns q before Three) as [Done Res].
    destruct (consistent_run q before init (consistent_init q)) as [_ [_ D]].
    auto.
  - intros before after Trigger Fair. rewrite run_app.
    pose proof (consistent_run q before init (consistent_init q)) as C.
    apply released_run_calls; [exact C | |].
    + unfold released. destruct C as [_ [_ D]].
      destruct Trigger as [T | T].
      * destruct (caller_returns q before T) as [Done _].
        rewrite (D Done). apply orb_true_r.
      * now rewrite (canceled_run q before init T).
    + unfold turnsNeeded. destruct (watcher _); lia.
Qed.

(** The results [RunQuery] computes from what [runQuery] returned (lines
    299-303). *)
Definition sequentialResult (q : Request) : string * option error :=
  match snd (queryResult q) with
  | Some e => ("", Some (Wrap e "failed to run query"))
  | None => (fst (queryResult q), None)
  end.

(** Without a cancellation the watcher stays in its [select] until
    [close(done)] has run, that is until the results are evaluated. *)
Definition quiet (q : Request) (s : State) : Prop :=
  ctxDone s = false /\
  match caller s with
  | InRunQuery =>
      watcher s = AtSelect /\ doneClosed s = false /\ returned s = None
  | AtCheck =>
      watcher s = AtSelect /\ doneClosed s = false /\ returned s = None /\
      err s = snd (queryResult q) /\ output s = fst (queryResult q)
  | AtDefer =>
      watcher s = AtSelect /\ doneClosed s = false /\
      returned s = Some (sequentialResult q)
  | CallerDone => returned s = Some (sequentialResult q)
  end.

Lemma quiet_step (q : Request) (s : State) (t : Turn) :
  t <> CancelTurn -> quiet q s -> quiet q (step q s t).
Proof.
  unfold quiet. intros NC [X Q]. destruct t; [| | congruence]; simpl.
  - unfold stepCaller. destruct (caller s) eqn:PC; simpl; rewrite ?PC.
    + destruct Q as [W [D R]]. repeat split; auto.
    + destruct Q as [W [D [R [E O]]]]. unfold sequentialResult.
      rewrite E, O. repeat split; auto.
    + destruct Q as [W [D R]]. repeat split; auto.
    + repeat split; auto.
  - unfold stepWatcher. destruct (caller s) eqn:PC.
    + destruct Q as [W [D R]]. rewrite W, X, D. simpl. rewrite PC.
      repeat split; auto.
    + destruct Q as [W [D [R [E O]]]]. rewrite W, X, D. simpl. rewrite PC.
      repeat split; auto.
    + destruct Q as [W [D R]]. rewrite W, X, D. simpl. rewrite PC.
      repeat split; auto.
    + destruct (watcher s); simpl; rewrite ?PC; auto.
      destruct (ctxDone s || doneClosed s); simpl; rewrite ?PC; auto.
Qed.

Lemma quiet_run (q : Request) (schedule : list Turn) :
  ~ In CancelTurn schedule ->
  forall s, quiet q s -> quiet q (run q schedule s).
Proof.
  induction schedule as [|t rest IH]; intros NC s Qs; simpl; [exact Qs |].
  apply IH.
  - intros I. apply NC. now right.
  - apply quiet_step; [| exact Qs]. intros ->. apply NC. now left.
Qed.

(** As long as the caller's context is not canceled, the watcher's
    assignment to the shared [err] comes too late to be read at line 299:
    the results of [RunQuery] are those of the sequential reading. *)
Lemma results_without_cancel (q : Request) (schedule : list Turn) :
  ~ In CancelTurn schedule ->
  forall res,
    returned (run q schedule init) = Some res -> res = sequentialResult q.
Proof.
  intros NC res E.
  assert (Q : quiet q (run q schedule init)).
  { apply quiet_run; [exact NC |]. unfold quiet, init. simpl. auto. }
  destruct Q as [_ Q]. destruct (caller (run q schedule init));
    repeat match goal with H : _ /\ _ |- _ => destruct H end; congruence.
Qed.

(** The watcher never removes the container under a request that is still
    running with a live context: whenever a force-remove call has been
    made, the caller's context has been canceled or [RunQuery] has
    returned, its results evaluated before. *)
Theorem watcher_spares_running_request :
  forall (q : Request) (schedule : list Turn),
    removeCalls (run q schedule init) <> [] ->
    ctxDone (run q schedule init) = true \/
    (caller (run q schedule init) = CallerDone /\
     exists res, returned (run q schedule init) = Some res).
Proof.
  intros q schedule Called.
  destruct (consistent_run q schedule init (consistent_init q)) as [C [R _]].
  assert (O : ordered (run q schedule init)).
  { apply ordered_run. unfold ordered, init. simpl.
    split; [discriminate | intros [X | X]; discriminate]. }
  destruct O as [D Res].
  assert (Rel : released (run q schedule init) = true).
  { apply R. intros W. rewrite W in C. contradiction. }
  unfold released in Rel. apply orb_true_iff in Rel as [X | X]; [now left |].
  right. specialize (D X). split; [exact D |].
  destruct (returned (run q schedule init)) as [res|] eqn:E.
  - now exists res.
  - exfalso. apply Res; [now right | reflexivity].
Qed.

(** What line 299 can read.  The results of [RunQuery] are computed from
    the error [runQuery] returned or, when the watcher's assignment to
    the shared [err] came in between, from the result of its
    force-remove; the output is that of [runQuery] in both cases. *)
Definition resultsFrom (q : Request) (read : option error) : string * option error :=
  match read with
  | Some e => ("", Some (Wrap e "failed to run query"))
  | None => (fst (queryResult q), None)
  end.

Definition sourced (q : Request) (s : State) : Prop :=
  (forall res, watcher s = AtAssign res -> res = removeResult q) /\
  match caller s with
  | InRunQuery => returned s = None
  | AtCheck =>
      output s = fst (queryResult q) /\ returned s = None /\
      (err s = snd (queryResult q) \/
       (watcher s = Exited /\ err s = removeResult q))
  | AtDefer | CallerDone =>
      returned s = Some (resultsFrom q (snd (queryResult q))) \/
      (removeCalls s = [cid q] /\
       returned s = Some (resultsFrom q (removeResult q)))
  end.

Lemma sourced_step (q : Request) (s : State) (t : Turn) :
  consistent q s -> sourced q s -> sourced q (step q s t).
Proof.
  unfold sourced. intros [C _] [A J]. destruct t; simpl.
  - unfold stepCaller. destruct (caller s) eqn:PC; simpl; rewrite ?PC.
    + split; [exact A |]. auto.
    + destruct J as [O [R [E | [W E]]]]; (split; [exact A |]).
      * left. unfold resultsFrom. now rewrite E, O.
      * right. rewrite W in C. split; [exact C |].
        unfold resultsFrom. now rewrite E, O.
    + split; [exact A | exact J].
    + split; [exact A | exact J].
  - unfold stepWatcher. destruct (watcher s) eqn:W; simpl.
    + destruct (ctxDone s || doneClosed s); simpl; rewrite ?W;
        [| split; [exact A | exact J]].
      split; [discriminate |].
      destruct (caller s); auto.
      destruct J as [O [R [E | [X _]]]]; [auto | discriminate].
    + split; [now intros res [= <-] |].
      destruct (caller s); auto.
      * destruct J as [O [R [E | [X _]]]]; [auto | discriminate].
      * destruct J as [J | [Calls _]]; [now left | rewrite C in Calls; discriminate].
      * destruct J as [J | [Calls _]]; [now left | rewrite C in Calls; discriminate].
    + split; [discriminate |]. rewrite (A res eq_refl).
      destruct (caller s); auto.
      destruct J as [O [R _]]. auto.
    + rewrite W. split; [exact A | exact J].
  - split; [exact A | exact J].
Qed.

Lemma sourced_run (q : Request) (schedule : list Turn) :
  forall s, consistent q s -> sourced q s -> sourced q (run q schedule s).
Proof.
  induction schedule as [|t rest IH]; intros s C J; simpl; [exact J |].
  apply IH; [now apply consistent_step | now apply sourced_step].
Qed.

(** Under every interleaving the results of [RunQuery] are those the
    sequential reading gives, or those line 299 computes from the result
    of the watcher's force-remove, which then has been called. *)
Theorem results_read_own_or_watcher_error :
  forall (q : Request) (schedule : list Turn) (res : string * option error),
    returned (run q schedule init) = Some res ->
    res = sequentialResult q \/
    (res = resultsFrom q (removeResult q) /\
     removeCalls (run q schedule init) = [cid q]).
Proof.
  intros q schedule res E.
  assert (J : sourced q (run q schedule init)).
  { apply sourced_run; [apply consistent_init |].
    unfold sourced, init. simpl. split; [discriminate | reflexivity]. }
  destruct J as [_ J]. rewrite E in J.
  destruct (caller (run q schedule init)).
  - discriminate.
  - destruct J as [_ [R _]]. discriminate.
  - destruct J as [[= ->] | [Calls [= ->]]]; [left; reflexivity | right; auto].
  - destruct J as [[= ->] | [Calls [= ->]]]; [left; reflexivity | right; auto].
Qed.

End Watcher.

(** ** A host to run the model on *)

(** Stand-ins for the naming functions of package [qrunner], used by the
    examples only. *)
Definition exampleLabel : string := "chp-owned".

Definition exampleFullImageName (repo ver : string) : string :=
  (repo ++ ":" ++ ver)%string.

Definition examplePlaygroundImageName (repo digest : string) : string :=
  (repo ++ "@" ++ digest)%string.

Definition exampleIsPlaygroundImageName (tag repo : string) : bool :=
  HasPrefix tag (repo ++ "@")%string.

Definition exampleLabels (id ver : string) : list (string * string) :=
  [(exampleLabel, "true"); ("run-id", id); ("version", ver)].

(** Insertion sort on the last-tag time with the comparison of line 227:
    one of the orders [sort.Slice] may produce. *)
Fixpoint insertByLastTagTime (x : ImageInspect) (l : list ImageInspect)
  : list ImageInspect :=
  match l with
  | [] => [x]
  | y :: l' =>
      if Time_Before (LastTagTime y) (LastTagTime x)
      then y :: insertByLastTagTime x l'
      else x :: l
  end.

Fixpoint insertionSort (l : list ImageInspect) : list ImageInspect :=
  match l with
  | [] => []
  | x :: l' => insertByLastTagTime x (insertionSort l')
  end.

Definition image (name : string) (size : Z) (tagged : Time) : ImageInspect :=
  {| ImageInspect_ID := name;
     ImageInspect_RepoTags := [("repo@" ++ name)%string];
     ImageInspect_Size := size;
     LastTagTime := tagged |}.

Definition summary (name tag : string) : ImageSummary :=
  {| ImageSummary_ID := name; ImageSummary_RepoTags := [tag] |}.

(** Three owned images, tagged at times 1, 2 and 3, and a foreign one. *)
Definition exampleImages : list ImageSummary :=
  [ summary "b" "repo@b"; summary "postgres" "postgres:15";
    summary "c" "repo@c"; summary "a" "repo@a" ].

Definition exampleInspect (ref : string) : Result ImageInspect :=
  if String.eqb ref "a" then Ok (image "a" 100 1)
  else if String.eqb ref "b" then Ok (image "b" 200 2)
  else if String.eqb ref "c" then Ok (image "c" 300 3)
  else if String.eqb ref "repo@sha256:abc" then Ok (image "sha256:abc" 400 4)
  else Err "No such image".

Definition refusal : string :=
  "Code: 210. DB::NetException: Connection refused (localhost:9000)".

(** A container created at second 0 and one created at second 995. *)
Definition exampleContainers : list Container :=
  [ {| Container_ID := "old"; Container_Created := 0; Container_SizeRw := 7 |};
    {| Container_ID := "young"; Container_Created := 995; Container_SizeRw := 9 |} ].

(** A host on which every call succeeds: the clock stands at second 1000,
    version 22.1 resolves to digest sha256:abc, whose image is cached.
    The prune, the inspection and the outcome of an exec are left open
    for the variants below. *)
Definition hostWith
  (prune : Result ContainersPruneReport)
  (inspect : string -> Result ImageInspect)
  (select : History -> ExecOutcome) : World :=
  {| tagStorage_Get := fun _ ver =>
       if String.eqb ver "22.1" then Some {| Digest := "sha256:abc" |} else None;
     ctx_Done := fun _ => false;
     time_Now := fun _ => time_Unix 1000 0;
     cli_ContainersPrune := fun _ _ => prune;
     cli_ContainerList := fun _ _ => Ok exampleContainers;
     cli_ContainerRemove := fun _ _ => None;
     cli_ImageList := fun _ => Ok exampleImages;
     cli_ImageInspectWithRaw := fun _ ref => inspect ref;
     cli_ImageRemove := fun _ _ => None;
     cli_ImagePull := fun _ _ => None;
     io_ReadAll := fun _ => Ok "";
     cli_ImageTag := fun _ _ _ => None;
     cli_ContainerCreate := fun _ _ => Ok "container-1";
     cli_ContainerStart := fun _ _ => None;
     cli_ContainerExecCreate := fun _ _ _ => Ok "exec-1";
     cli_ContainerExecAttach := fun _ _ => None;
     exec_select := select |}.

Definition alwaysRefused (_ : History) : ExecOutcome :=
  OutputDone (Ok ("", refusal)).

Definition nothingPruned : Result ContainersPruneReport :=
  Ok {| ContainersDeleted := []; SpaceReclaimed := 0 |}.

(** The host on which the server in the container keeps refusing
    connections. *)
Definition host : World := hostWith nothingPruned exampleInspect alwaysRefused.

(** The same host when the inspection of image b fails. *)
Definition hostInspectFails : World :=
  hostWith nothingPruned
    (fun ref => if String.eqb ref "b" then Err "context deadline exceeded"
                else exampleInspect ref)
    alwaysRefused.

(** The same host when the prune of stopped containers fails. *)
Definition hostPruneFails : World :=
  hostWith (Err "daemon unreachable") exampleInspect alwaysRefused.

(** The same host when the server accepts connections from the third exec
    on. *)
Definition hostReadyAtThird : World :=
  hostWith nothingPruned exampleInspect
    (fun h => if (execCalls h <? 3)%nat then OutputDone (Ok ("", refusal))
              else OutputDone (Ok ("1", ""))).

Definition exampleGC (threshold : option Z) (buffer : Z) : GCConfig :=
  {| TriggerFrequency := 60000000000;
     ContainerTTL := Some 10000000000;
     ImageGCCountThreshold := threshold;
     ImageBufferSize := buffer |}.

Definition exampleRunner (retries : Z) : Runner :=
  {| cfg := {| GC := Some (exampleGC (Some 3) 1);
               MaxExecRetries := retries;
               ExecRetryDelay := 100000000;
               CustomConfigPath := None |};
     repository := "repo" |}.

Definition exampleState : requestState :=
  {| runID := "run-1"; version := "22.1"; query := "SELECT 1";
     chpImageName := ""; containerID := "" |}.

(** The request state once the image is there and the container runs. *)
Definition runningState : requestState :=
  set_containerID (set_chpImageName exampleState "repo@sha256:abc") "container-1".

Lemma insertByLastTagTime_perm (x : ImageInspect) (l : list ImageInspect) :
  Permutation (insertByLastTagTime x l) (x :: l).
Proof.
  induction l as [|y l IH]; simpl; [reflexivity |].
  destruct (Time_Before (LastTagTime y) (LastTagTime x)); [| reflexivity].
  rewrite IH. apply perm_swap.
Qed.

Lemma insertionSort_perm (l : list ImageInspect) :
  Permutation (insertionSort l) l.
Proof.
  induction l as [|x l IH]; simpl; [reflexivity |].
  rewrite insertByLastTagTime_perm. now constructor.
Qed.

Lemma insertByLastTagTime_sorted (x : ImageInspect) (l : list ImageInspect) :
  StronglySorted ascending l -> StronglySorted ascending (insertByLastTagTime x l).
Proof.
  induction 1 as [|y l S IH F]; simpl.
  - repeat constructor.
  - unfold Time_Before. destruct (LastTagTime y <? LastTagTime x) eqn:B.
    + constructor; [exact IH |].
      apply Z.ltb_lt in B.
      rewrite Forall_forall in *. intros z Iz.
      apply (Permutation_in _ (insertByLastTagTime_perm x l)) in Iz.
      destruct Iz as [<- | Iz]; [unfold ascending; lia | now apply F].
    + apply Z.ltb_ge in B. constructor; [now constructor |].
      constructor; [exact B |].
      rewrite Forall_forall in *. intros z Iz. specialize (F z Iz).
      unfold ascending in *. lia.
Qed.

Lemma insertionSort_sorted (l : list ImageInspect) :
  StronglySorted ascending (insertionSort l).
Proof.
  induction l as [|x l IH]; simpl; [constructor |].
  now apply insertByLastTagTime_sorted.
Qed.

(** ** The properties on the example host *)

Definition exampleTriggerImagesGC (w : World) (gc : GCConfig) :=
  triggerImagesGC exampleIsPlaygroundImageName insertionSort w (exampleRunner 2) gc.

Definition exampleTriggerGC (w : World) (gc : GCConfig) :=
  triggerGC exampleLabel exampleIsPlaygroundImageName insertionSort w
    (exampleRunner 2) gc.

Definition examplePull (state : requestState) :=
  pull exampleFullImageName examplePlaygroundImageName host (exampleRunner 2) state.

(** The watcher does not assign the shared [err] early; or it does, its
    removal having failed. *)
Definition undisturbed : History -> option (option error) := fun _ => None.



(** The history of a pull that hits the cache. *)
Definition cacheHit : History :=
  [ EvTagGet "22.1" (Some {| Digest := "sha256:abc" |});
    EvImageInspect "repo@sha256:abc" (Ok (image "sha256:abc" 400 4)) ].


(** One refused exec attempt followed by the retry delay. *)
Definition refusedAttempt : History :=
  [ EvExecCreate "container-1"
      ["clickhouse-client"; "-n"; "-m"; "--query"; "SELECT 1"]
      (Ok "exec-1");
    EvExecAttach "exec-1" None;
    EvExecOutput (OutputDone (Ok ("", refusal)));
    EvSleep 100000000 ].

(** With three retries and a server that is ready at the third attempt:
    three exec sessions, and the output of the third. *)
Example ready_at_third_attempt :
  result (runQuery hostReadyAtThird (exampleRunner 3) runningState) [] =
    ("1", None) /\
  execCalls (history (runQuery hostReadyAtThird (exampleRunner 3) runningState) []) =
    3%nat.
Proof. split; reflexivity. Qed.

(** The readiness check on an empty stderr, on a refusal and on another
    error. *)
Example readiness_examples :
  checkIfQueryExecuted "1" "" = true /\
  checkIfQueryExecuted "" refusal = false /\
  checkIfQueryExecuted "" "Code: 62. DB::Exception: Syntax error" = true /\
  checkIfQueryExecuted refusal "" = true.
Proof. repeat split. Qed.

(** A pull that misses the cache: the upstream image is pulled, the
    stream drained and the image tagged under the cache name. *)
Example pull_on_cache_miss :
  pull exampleFullImageName examplePlaygroundImageName
    (hostWith nothingPruned (fun _ => Err "No such image") alwaysRefused)
    (exampleRunner 2) exampleState [] =
    ((set_chpImageName exampleState "repo@sha256:abc", None),
     [ EvTagGet "22.1" (Some {| Digest := "sha256:abc" |});
       EvImageInspect "repo@sha256:abc" (Err "No such image");
       EvImagePull "repo:22.1" None;
       EvReadAll (Ok "");
       EvImageTag "repo:22.1" "repo@sha256:abc" None ]).
Proof. reflexivity. Qed.

(** The sweep removes the container created 1000 s ago and spares the
    one created 5 s ago, the TTL being 10 s. *)
Example sweep_removes_old_only :
  history (triggerContainersGC exampleLabel host (exampleGC None 1)) [] =
    [ EvContainersPrune exampleLabel nothingPruned;
      EvContainerList exampleLabel (Ok exampleContainers);
      EvNow 1000000000000; EvContainerRemove "old" None;
      EvNow 1000000000000 ].
Proof. reflexivity. Qed.

(** Beyond the range of creation times the seconds of [time.Unix] wrap:
    the deadline of a container created at second 2^63 - 1 lies before
    second 1000. *)
Example deadline_wraps :
  Time_Before (time_Unix 1000 0)
    (deadline 10000000000
       {| Container_ID := "far"; Container_Created := 2 ^ 63 - 1;
          Container_SizeRw := 0 |}) = false /\
  deadline 10000000000
    {| Container_ID := "far"; Container_Created := 2 ^ 63 - 1;
       Container_SizeRw := 0 |} =
  (2 ^ 63 - 1 - 2 ^ 64 + 10) * 1000000000.
Proof. split; reflexivity. Qed.

Lemma C6_witness :
  SweepTrace 10000000000 exampleContainers
    [EvNow 1000000000000; EvContainerRemove "old" None; EvNow 1000000000000].
Proof.
  pose proof (C6_sweep_spares_containers_younger_than_ttl
                exampleLabel host (exampleGC None 1) []) as H.
  simpl in H. destruct H as [pruned [tr [Hh Shape]]].
  rewrite sweep_removes_old_only in Hh. injection Hh as _ <-.
  destruct Shape as [E | [[e E] | [containers [sweep [E S]]]]];
    try discriminate.
  injection E as <- <-. apply S.
  - unfold isDuration. lia.
  - unfold createdInRange. repeat constructor; simpl; lia.
Defined.

Lemma C1_witness :
  exists count space,
    insertionSort [image "b" 200 2; image "c" 300 3; image "a" 100 1] =
      [image "a" 100 1; image "b" 200 2; image "c" 300 3] /\
    result (exampleTriggerImagesGC host (exampleGC (Some 3) 1)) [] =
      Returned (count, space, None) /\
    removalAttempts (history (exampleTriggerImagesGC host (exampleGC (Some 3) 1)) []) =
      flat_map ImageInspect_RepoTags [image "b" 200 2; image "c" 300 3] /\
    (forall v, In v [image "b" 200 2; image "c" 300 3] ->
               LastTagTime (image "a" 100 1) <= LastTagTime v).
Proof.
  destruct (C1_image_gc_removes_all_but_buffer
              exampleIsPlaygroundImageName insertionSort
              insertionSort_perm insertionSort_sorted
              host (exampleRunner 2) (exampleGC (Some 3) 1) 3 exampleImages []
              eq_refl eq_refl
              ltac:(vm_compute; discriminate)
              ltac:(vm_compute; split; [discriminate | reflexivity]))
    as [count [space [So [Ps [F [LR [LV [Dir [R [A N]]]]]]]]]].
  exists count, space.
  split; [reflexivity |]. split; [exact R |]. split; [exact A |].
  intros v Iv. apply Dir; [left; reflexivity | exact Iv].
Defined.

(** C1, as stated, fails.  On the host with three owned candidates a, b
    and c, tagged at times 1, 2 and 3, and a buffer of one, the pass
    attempts b and c: the most recently tagged image c is removed and the
    least recently tagged a is the one kept.  And when the inspection of b
    fails, one image is attempted (again c), not C - B = 2. *)
Lemma C1_counterexample :
  cli_ImageList host [] = Ok exampleImages /\
  List.length (filter (matched exampleIsPlaygroundImageName (exampleRunner 2))
                 exampleImages) = 3%nat /\
  ImageBufferSize (exampleGC (Some 3) 1) = 1 /\
  result (inspectCandidates host
            (filter (matched exampleIsPlaygroundImageName (exampleRunner 2))
               exampleImages)) [EvImageList (Ok exampleImages)] =
    [image "b" 200 2; image "c" 300 3; image "a" 100 1] /\
  removalAttempts (history (exampleTriggerImagesGC host (exampleGC (Some 3) 1)) []) =
    ImageInspect_RepoTags (image "b" 200 2) ++ ImageInspect_RepoTags (image "c" 300 3) /\
  removalAttempts
    (history (exampleTriggerImagesGC hostInspectFails (exampleGC (Some 3) 1)) []) =
    ImageInspect_RepoTags (image "c" 300 3) /\
  List.length
    (removalAttempts
       (history (exampleTriggerImagesGC hostInspectFails (exampleGC (Some 3) 1)) []))
    <> (3 - 1)%nat.
Proof.
  repeat split; try reflexivity. vm_compute. discriminate.
Qed.

Lemma C5_witness :
  exampleTriggerGC hostPruneFails (exampleGC (Some 3) 1) [] =
    (Returned
       (Some (Wrap (Wrap "daemon unreachable" "failed to prune stopped containers")
                "containers gc failed")),
     [EvIsStopped false; EvContainersPrune exampleLabel (Err "daemon unreachable")]) /\
  imageCalls
    [EvIsStopped false; EvContainersPrune exampleLabel (Err "daemon unreachable")] =
  imageCalls [] /\
  ((exists e', Wrap "daemon unreachable" "failed to prune stopped containers" =
               Wrap e' "failed to prune stopped containers") \/
   (exists e', Wrap "daemon unreachable" "failed to prune stopped containers" =
               Wrap e' "failed to list containers")).
Proof.
  exact (C5_container_gc_error_ends_the_trigger
           exampleLabel exampleIsPlaygroundImageName insertionSort
           hostPruneFails (exampleRunner 2) (exampleGC (Some 3) 1) [] eq_refl).
Defined.

(** C5, as stated, fails: when the prune of the container sub-pass fails,
    the trigger returns the error after two interactions, none of them
    with an image, although the image sub-pass, had it run from there,
    would have listed and inspected the images and removed two. *)
Lemma C5_counterexample :
  history (exampleTriggerGC hostPruneFails (exampleGC (Some 3) 1)) [] =
    [EvIsStopped false; EvContainersPrune exampleLabel (Err "daemon unreachable")] /\
  imageCalls (history (exampleTriggerGC hostPruneFails (exampleGC (Some 3) 1)) []) = O /\
  removalAttempts
    (history (exampleTriggerImagesGC hostPruneFails (exampleGC (Some 3) 1))
       [EvIsStopped false; EvContainersPrune exampleLabel (Err "daemon unreachable")]) =
    ["repo@b"; "repo@c"].
Proof. repeat split; reflexivity. Qed.

Lemma C7_witness :
  exampleTriggerImagesGC host (exampleGC (Some 5) 1) [] =
    (Returned (0, 0, None), [EvImageList (Ok exampleImages)]) /\
  removalAttempts (history (exampleTriggerImagesGC host (exampleGC (Some 5) 1)) []) = [].
Proof.
  apply (proj2 (C7_no_image_removal_below_threshold
                  exampleIsPlaygroundImageName insertionSort
                  host (exampleRunner 2) (exampleGC (Some 5) 1) [])
           5 exampleImages).
  - reflexivity.
  - vm_compute. split; [discriminate | reflexivity].
  - reflexivity.
  - vm_compute. reflexivity.
Defined.

Lemma C9_witness :
  examplePull exampleState [] =
    ((set_chpImageName exampleState "repo@sha256:abc", None), cacheHit).
Proof.
  exact (C9_pull_hits_cache_without_pull_or_tag
           exampleFullImageName examplePlaygroundImageName
           host (exampleRunner 2) exampleState [] {| Digest := "sha256:abc" |}
           eq_refl).
Defined.

(** C4, as stated, fails.  Both attempts are refused, with an empty
    stdout; the output returned is a line feed followed by the stderr of
    the last attempt, not stdout concatenated with stderr. *)
Lemma C4_counterexample :
  Refused host (exampleRunner 2) runningState 2 [] "" refusal
    (refusedAttempt ++ refusedAttempt) /\
  runQuery host (exampleRunner 2) runningState [] =
    ((String (ascii_of_nat 10) refusal, None), refusedAttempt ++ refusedAttempt) /\
  fst (result (runQuery host (exampleRunner 2) runningState) []) <>
    ("" ++ refusal)%string.
Proof.
  split; [| split; [reflexivity | vm_compute; discriminate]].
  apply (refused_again host (exampleRunner 2) runningState 0 []
           "" refusal (firstn 3 refusedAttempt)); [reflexivity | reflexivity |].
  apply (refused_last host (exampleRunner 2) runningState
           (firstn 3 refusedAttempt ++ [EvSleep 100000000])
           "" refusal (refusedAttempt ++ firstn 3 refusedAttempt));
    reflexivity.
Qed.

Lemma C4_witness :
  runQuery host (exampleRunner 2) runningState [] =
    (((("" ++ LF) ++ refusal)%string, None), refusedAttempt ++ refusedAttempt) /\
  execCalls (refusedAttempt ++ refusedAttempt) = 2%nat.
Proof.
  apply (proj1 (C4_retries_exhausted_returns_last_output
                  host (exampleRunner 2) runningState [])
           "" refusal (refusedAttempt ++ refusedAttempt)).
  apply (refused_again host (exampleRunner 2) runningState 0 []
           "" refusal (firstn 3 refusedAttempt)); [reflexivity | reflexivity |].
  apply (refused_last host (exampleRunner 2) runningState
           (firstn 3 refusedAttempt ++ [EvSleep 100000000])
           "" refusal (refusedAttempt ++ firstn 3 refusedAttempt));
    reflexivity.
Defined.



(** The requests of the examples: a query that fails and one that
    succeeds; the force-remove fails. *)
Definition exampleRequest : Watcher.Request :=
  {| Watcher.cid := "container-1";
     Watcher.queryResult := ("", Some "context canceled");
     Watcher.removeResult := Some "No such container" |}.

Definition answeredRequest : Watcher.Request :=
  {| Watcher.cid := "container-2";
     Watcher.queryResult := ("1", None);
     Watcher.removeResult := Some "No such container" |}.

(** A request that returns its output, one that returns an error, and
    one whose context is canceled while [runQuery] is running. *)
Lemma C2_witness :
  Watcher.removeCalls
    (Watcher.run answeredRequest
       ([Watcher.CallerTurn; Watcher.WatcherTurn; Watcher.CallerTurn;
         Watcher.CallerTurn] ++
        [Watcher.WatcherTurn; Watcher.WatcherTurn; Watcher.WatcherTurn])
       Watcher.init) = ["container-2"] /\
  Watcher.removeCalls
    (Watcher.run exampleRequest
       ([Watcher.CallerTurn; Watcher.CallerTurn; Watcher.CallerTurn] ++
        [Watcher.WatcherTurn; Watcher.WatcherTurn])
       Watcher.init) = ["container-1"] /\
  Watcher.removeCalls
    (Watcher.run exampleRequest
       ([Watcher.WatcherTurn; Watcher.CancelTurn] ++
        [Watcher.WatcherTurn; Watcher.CallerTurn; Watcher.WatcherTurn;
         Watcher.CallerTurn; Watcher.WatcherTurn])
       Watcher.init) = ["container-1"].
Proof.
  split; [| split].
  - apply (proj2 (proj2 (Watcher.C2_exactly_one_force_remove_per_request
                           answeredRequest))).
    + left. simpl. lia.
    + simpl. lia.
  - apply (proj2 (proj2 (Watcher.C2_exactly_one_force_remove_per_request
                           exampleRequest))).
    + left. simpl. lia.
    + simpl. lia.
  - apply (proj2 (proj2 (Watcher.C2_exactly_one_force_remove_per_request
                           exampleRequest))).
    + right. simpl. auto.
    + simpl. lia.
Defined.

(** ** Further examples *)

(** The example host with other answers of the tag storage, of the
    container start and of the exec. *)
Definition requestHost
  (tags : string -> option ImageTag)
  (start : option error)
  (select : History -> ExecOutcome) : World :=
  {| tagStorage_Get := fun _ => tags;
     ctx_Done := ctx_Done host;
     time_Now := time_Now host;
     cli_ContainersPrune := cli_ContainersPrune host;
     cli_ContainerList := cli_ContainerList host;
     cli_ContainerRemove := cli_ContainerRemove host;
     cli_ImageList := cli_ImageList host;
     cli_ImageInspectWithRaw := cli_ImageInspectWithRaw host;
     cli_ImageRemove := cli_ImageRemove host;
     cli_ImagePull := cli_ImagePull host;
     io_ReadAll := io_ReadAll host;
     cli_ImageTag := cli_ImageTag host;
     cli_ContainerCreate := cli_ContainerCreate host;
     cli_ContainerStart := fun _ _ => start;
     cli_ContainerExecCreate := cli_ContainerExecCreate host;
     cli_ContainerExecAttach := cli_ContainerExecAttach host;
     exec_select := select |}.

(** Versions 22.1 and latest resolve to the same digest. *)
Definition aliasTags (ver : string) : option ImageTag :=
  if String.eqb ver "22.1" then Some {| Digest := "sha256:abc" |}
  else if String.eqb ver "latest" then Some {| Digest := "sha256:abc" |}
  else None.

Definition hostAliases : World := requestHost aliasTags None alwaysRefused.

(** The host on which the start of a container fails. *)
Definition hostStartFails : World :=
  requestHost aliasTags (Some "port is already allocated") alwaysRefused.

(** The host on which the caller's context ends during the first exec;
    and the same when the copy goroutine, its stream closed under it,
    assigns its read error before [exec] has returned. *)
Definition hostCanceled : World :=
  requestHost aliasTags None (fun _ => CtxDone "context canceled" None).

Definition hostCanceledLate : World :=
  requestHost aliasTags None
    (fun _ => CtxDone "context canceled"
                (Some (Some "read: use of closed network connection"))).

Definition latestState : requestState :=
  {| runID := "run-2"; version := "latest"; query := "SELECT 2";
     chpImageName := ""; containerID := "" |}.

Definition exampleSpec : ContainerSpec :=
  {| Spec_Image := "repo@sha256:abc";
     Spec_Labels := exampleLabels "run-1" "22.1";
     Spec_Mounts := [] |}.

(** A runner with a custom configuration file. *)
Definition configuredRunner (p : string) : Runner :=
  {| cfg := {| GC := None; MaxExecRetries := 3; ExecRetryDelay := 100000000;
               CustomConfigPath := Some p |};
     repository := "repo" |}.

Example extension_examples :
  path_Ext "/etc/playground/custom.xml" = ".xml" /\
  path_Ext "/etc/playground.d/custom" = "" /\
  path_Ext "archive.tar.gz" = ".gz" /\
  path_Ext "" = "" /\
  customConfigMounts (configuredRunner "/etc/playground/custom.yaml") =
    [ {| Mount_Source := "/etc/playground/custom.yaml";
         Mount_Target := "/etc/clickhouse-server/config.d/custom-config.yaml";
         Mount_ReadOnly := true |} ].
Proof. repeat split. Qed.

Example exec_after_cancellation :
  result (exec hostCanceled runningState) [] = ("", "", Some "context canceled") /\
  result (exec hostCanceledLate runningState) [] =
    ("", "", Some "read: use of closed network connection").
Proof. split; reflexivity. Qed.

(** Two refused attempts, each followed by the delay. *)
Example retry_trace_example :
  RetryTrace 100000000 2 (refusedAttempt ++ refusedAttempt).
Proof.
  apply (retry_refused 100000000 1 (firstn 3 refusedAttempt)
           (firstn 3 refusedAttempt ++ [EvSleep 100000000]));
    [repeat constructor | reflexivity | reflexivity |].
  apply (retry_refused 100000000 0 (firstn 3 refusedAttempt) []);
    [repeat constructor | reflexivity | reflexivity | constructor].
Qed.

Lemma containers_gc_counts_witness :
  exists sweep n space,
    SweepTally exampleContainers sweep n space /\
    0 <= n <= 2 /\
    triggerContainersGC exampleLabel host (exampleGC None 1) [] =
      ((u64 (0 + n), u64 (0 + space), None),
       [EvContainersPrune exampleLabel nothingPruned;
        EvContainerList exampleLabel (Ok exampleContainers)] ++ sweep).
Proof.
  exact (containers_gc_counts_pruned_and_removed
           exampleLabel host (exampleGC None 1) 10000000000
           {| ContainersDeleted := []; SpaceReclaimed := 0 |} exampleContainers []
           eq_refl eq_refl eq_refl).
Defined.

Lemma images_gc_owned_witness :
  exists tr,
    history (exampleTriggerImagesGC host (exampleGC (Some 3) 1)) [] =
      [] ++ EvImageList (Ok exampleImages) :: tr /\
    (inspectedRefs tr = [] \/ inspectedRefs tr = ["b"; "c"; "a"]) /\
    (forall ref, In ref (inspectedRefs tr) ->
       exists img tag,
         In img exampleImages /\ ImageSummary_ID img = ref /\
         In tag (ImageSummary_RepoTags img) /\
         exampleIsPlaygroundImageName tag "repo" = true) /\
    (forall ref, In ref (removalAttempts tr) ->
       exists i, In i (inspectedImages tr) /\ In ref (ImageInspect_RepoTags i)).
Proof.
  exact (images_gc_touches_only_owned_images
           exampleIsPlaygroundImageName insertionSort insertionSort_perm
           host (exampleRunner 2) (exampleGC (Some 3) 1) 3 exampleImages []
           eq_refl eq_refl).
Defined.

Lemma gc_trigger_fails_witness :
  exists e',
    Wrap (Wrap "daemon unreachable" "failed to prune stopped containers")
      "containers gc failed" =
      Wrap (Wrap e' "failed to prune stopped containers") "containers gc failed" \/
    Wrap (Wrap "daemon unreachable" "failed to prune stopped containers")
      "containers gc failed" =
      Wrap (Wrap e' "failed to list containers") "containers gc failed" \/
    Wrap (Wrap "daemon unreachable" "failed to prune stopped containers")
      "containers gc failed" =
      Wrap (Wrap e' "failed to list images") "images gc failed".
Proof.
  exact (gc_trigger_fails_only_on_prune_or_listing
           exampleLabel exampleIsPlaygroundImageName insertionSort insertionSort_perm
           hostPruneFails (exampleRunner 2) (exampleGC (Some 3) 1) []
           (Wrap (Wrap "daemon unreachable" "failed to prune stopped containers")
              "containers gc failed")
           eq_refl).
Defined.

(** The collector on the example host when the runner's context is done
    at the first [select]: one trigger, then the return. *)
Lemma collector_witness :
  StartGarbageCollector exampleLabel exampleIsPlaygroundImageName insertionSort
    host (exampleRunner 2) (fun _ => true) 1 [] =
    (LoopReturned, history (exampleTriggerGC host (exampleGC (Some 3) 1)) []).
Proof.
  exact (proj2 (proj2 (proj2 (collector_stops_only_when_context_is_done
                                exampleLabel exampleIsPlaygroundImageName insertionSort
                                insertionSort_perm host (exampleRunner 2)
                                (fun _ => true) 0 [])))
           tt eq_refl ltac:(vm_compute; reflexivity) eq_refl).
Defined.

Lemma evict_order_witness :
  exists retained victims,
    insertionSort [image "b" 200 2; image "c" 300 3; image "a" 100 1] =
      retained ++ victims /\
    Z.of_nat (List.length retained) = 1 /\
    removalAttempts
      (history (evict insertionSort host (exampleGC (Some 3) 1)
                  [image "b" 200 2; image "c" 300 3; image "a" 100 1]) []) =
      flat_map ImageInspect_RepoTags victims /\
    (forall k v, In k retained -> In v victims ->
                 LastTagTime k <= LastTagTime v).
Proof.
  exact (evict_keeps_the_head_of_the_order
           insertionSort insertionSort_perm insertionSort_sorted
           host (exampleGC (Some 3) 1)
           [image "b" 200 2; image "c" 300 3; image "a" 100 1] []
           ltac:(vm_compute; split; [discriminate | reflexivity])).
Defined.

Lemma evict_panic_witness :
  evict insertionSort host (exampleGC (Some 3) (-1))
    [image "b" 200 2; image "c" 300 3; image "a" 100 1] [] =
    (Panicked "slice bounds out of range", []).
Proof.
  exact (evict_negative_buffer_panics insertionSort host (exampleGC (Some 3) (-1))
           [image "b" 200 2; image "c" 300 3; image "a" 100 1] []
           ltac:(vm_compute; reflexivity)).
Defined.

Lemma pull_not_found_witness :
  pull exampleFullImageName examplePlaygroundImageName host (exampleRunner 2)
    latestState [] =
    ((latestState, Some "version not found"), [EvTagGet "latest" None]).
Proof.
  exact (proj2 (pull_not_found_iff_version_unknown
                  exampleFullImageName examplePlaygroundImageName
                  host (exampleRunner 2) latestState [])
           eq_refl).
Defined.

Lemma pull_cache_name_witness :
  chpImageName
    (fst (result (pull exampleFullImageName examplePlaygroundImageName hostAliases
                    (exampleRunner 2) exampleState) [])) =
  chpImageName
    (fst (result (pull exampleFullImageName examplePlaygroundImageName hostAliases
                    (exampleRunner 2) latestState) cacheHit)).
Proof.
  exact (proj1 (pull_cache_name_depends_on_digest_only
                  exampleFullImageName examplePlaygroundImageName
                  hostAliases (exampleRunner 2) exampleState latestState [] cacheHit
                  {| Digest := "sha256:abc" |} {| Digest := "sha256:abc" |}
                  eq_refl eq_refl eq_refl)).
Defined.

Lemma start_failure_witness :
  RunQuery exampleFullImageName examplePlaygroundImageName exampleLabels
    hostStartFails (exampleRunner 2) undisturbed "run-1" "SELECT 1" "22.1" [] =
    (("", Some (Wrap (Wrap "port is already allocated" "container cannot be started")
                  "failed to run container")),
     cacheHit ++
     [EvContainerCreate exampleSpec (Ok "container-1");
      EvContainerStart "container-1" (Some "port is already allocated")]).
Proof.
  exact (proj2 (start_failure_leaves_created_container
                  exampleFullImageName examplePlaygroundImageName exampleLabels
                  hostStartFails (exampleRunner 2) undisturbed
                  "run-1" "SELECT 1" "22.1" []
                  (set_chpImageName exampleState "repo@sha256:abc") cacheHit
                  "container-1" "port is already allocated"
                  eq_refl eq_refl eq_refl)).
Defined.

Lemma runQuery_ready_witness :
  exists h1,
    runQuery hostReadyAtThird (exampleRunner 3) runningState [] = (("1", None), h1) /\
    execCalls h1 = 3%nat.
Proof.
  eexists.
  apply (runQuery_stops_at_first_ready_attempt
           hostReadyAtThird (exampleRunner 3) runningState 2 []
           (refusedAttempt ++ refusedAttempt) _ "1" "").
  - vm_compute. lia.
  - exists "", refusal.
    apply (refused_again hostReadyAtThird (exampleRunner 3) runningState 0 []
             "" refusal (firstn 3 refusedAttempt)); [reflexivity | reflexivity |].
    apply (refused_last hostReadyAtThird (exampleRunner 3) runningState
             (firstn 3 refusedAttempt ++ [EvSleep 100000000])
             "" refusal (refusedAttempt ++ firstn 3 refusedAttempt));
      reflexivity.
  - reflexivity.
  - reflexivity.
Defined.

Lemma runQuery_gives_up_witness :
  exists h1,
    runQuery hostCanceled (exampleRunner 3) runningState [] =
      (("", Some "context canceled"), h1).
Proof.
  eexists.
  apply (runQuery_gives_up_on_exec_error
           hostCanceled (exampleRunner 3) runningState 0 [] [] _ "" "" "context canceled").
  - vm_compute. lia.
  - reflexivity.
  - reflexivity.
Defined.

Lemma results_without_cancel_witness :
  Watcher.returned
    (Watcher.run exampleRequest
       [Watcher.CallerTurn; Watcher.WatcherTurn; Watcher.CallerTurn;
        Watcher.CallerTurn; Watcher.WatcherTurn; Watcher.WatcherTurn;
        Watcher.WatcherTurn]
       Watcher.init) =
    Some (Watcher.sequentialResult exampleRequest).
Proof.
  rewrite <- (Watcher.results_without_cancel exampleRequest
                [Watcher.CallerTurn; Watcher.WatcherTurn; Watcher.CallerTurn;
                 Watcher.CallerTurn; Watcher.WatcherTurn; Watcher.WatcherTurn;
                 Watcher.WatcherTurn]
                ltac:(simpl; intuition discriminate)
                ("", Some (Wrap "context canceled" "failed to run query"))
                eq_refl).
  reflexivity.
Defined.

Lemma watcher_spares_witness :
  Watcher.ctxDone
    (Watcher.run exampleRequest
       [Watcher.CallerTurn; Watcher.CancelTurn; Watcher.WatcherTurn;
        Watcher.WatcherTurn] Watcher.init) = true \/
  (Watcher.caller
     (Watcher.run exampleRequest
        [Watcher.CallerTurn; Watcher.CancelTurn; Watcher.WatcherTurn;
         Watcher.WatcherTurn] Watcher.init) = Watcher.CallerDone /\
   exists res,
     Watcher.returned
       (Watcher.run exampleRequest
          [Watcher.CallerTurn; Watcher.CancelTurn; Watcher.WatcherTurn;
           Watcher.WatcherTurn] Watcher.init) = Some res).
Proof.
  apply (Watcher.watcher_spares_running_request exampleRequest
           [Watcher.CallerTurn; Watcher.CancelTurn; Watcher.WatcherTurn;
            Watcher.WatcherTurn]).
  vm_compute. discriminate.
Defined.

Lemma RunQuery_error_witness :
  "" = "" /\
  ((exists e', Wrap (Wrap "port is already allocated" "container cannot be started")
                 "failed to run container" = Wrap e' "pull failed") \/
   (exists e', Wrap (Wrap "port is already allocated" "container cannot be started")
                 "failed to run container" = Wrap e' "failed to run container") \/
   (exists e', Wrap (Wrap "port is already allocated" "container cannot be started")
                 "failed to run container" = Wrap e' "failed to run query")).
Proof.
  exact (RunQuery_error_names_the_stage
           exampleFullImageName examplePlaygroundImageName exampleLabels
           hostStartFails (exampleRunner 2) undisturbed
           "run-1" "SELECT 1" "22.1" []
           "" (Wrap (Wrap "port is already allocated" "container cannot be started")
                 "failed to run container")
           eq_refl).
Defined.

(** The context is canceled while [runQuery] runs, and the watcher, whose
    force-remove fails, assigns the shared [err] after line 298 and
    before line 299: the request that was answered returns the error of
    the removal. *)
Definition overtakingSchedule : list Watcher.Turn :=
  [Watcher.CancelTurn; Watcher.WatcherTurn; Watcher.WatcherTurn;
   Watcher.CallerTurn; Watcher.WatcherTurn; Watcher.CallerTurn;
   Watcher.CallerTurn].

Lemma results_read_witness :
  ("", Some "failed to run query: No such container") =
    Watcher.sequentialResult answeredRequest \/
  (("", Some "failed to run query: No such container") =
     Watcher.resultsFrom answeredRequest (Watcher.removeResult answeredRequest) /\
   Watcher.removeCalls (Watcher.run answeredRequest overtakingSchedule Watcher.init) =
     ["container-2"]).
Proof.
  exact (Watcher.results_read_own_or_watcher_error answeredRequest overtakingSchedule
           ("", Some "failed to run query: No such container") eq_refl).
Defined.
